(** * The chat ingestion and reaction loop of [index.js]

    A shallow embedding of [pollChat] (and of the helpers it calls:
    [sendToDiscord], [sendMessage], [saveParticipants], [formatUptime]) as
    state-passing functions with exceptions, followed by the properties of the
    polling state machine and of the per-message pipeline.

    Modelling conventions.
    - JavaScript strings are byte strings ([string]); [toLowerCase] folds the
      ASCII letters and leaves every other byte alone.
    - Timestamps and intervals are integers ([Z]); [Math.floor (a / b)] for a
      positive [b] is [a / b] and JavaScript's [%] is [Z.rem].
    - Every call that leaves the process (the provider's [list] and [insert],
      [fetch], [fs.writeFileSync]) and every clock read is answered by an
      environment that sees the whole history of calls made so far.
    - [logger] calls are left out: they neither throw nor touch the state.
    - The configuration is the validated one: banned words, templates and
      triggers are strings, and numbers stay below the size at which
      JavaScript prints an exponent. *)

From Stdlib Require Import ZArith DecimalString Ascii Lia.
From stdpp Require Import gmap strings list relations.

Local Open Scope Z_scope.

(** ** JavaScript string primitives used by the program *)

Module JsString.

(** The double-quote character, by its code. *)
Definition dquote : string := String "034"%char EmptyString.

Definition toLowerChar (c : ascii) : ascii :=
  let n := nat_of_ascii c in
  if ((65 <=? n) && (n <=? 90))%nat then ascii_of_nat (n + 32) else c.

(** [s.toLowerCase()] *)
Fixpoint toLowerCase (s : string) : string :=
  match s with
  | EmptyString => EmptyString
  | String c s' => String (toLowerChar c) (toLowerCase s')
  end.

Fixpoint dropStr (n : nat) (s : string) : string :=
  match n, s with
  | O, _ => s
  | S n', String _ s' => dropStr n' s'
  | S _, EmptyString => EmptyString
  end.

(** The text before and the text after the first occurrence of [pat] in
    [s]; [None] when [pat] does not occur. *)
Fixpoint splitFirst (pat s : string) : option (string * string) :=
  match s with
  | EmptyString =>
      if String.prefix pat EmptyString then Some (EmptyString, EmptyString)
      else None
  | String c s' =>
      if String.prefix pat s then Some (EmptyString, dropStr (String.length pat) s)
      else match splitFirst pat s' with
           | Some (b, a) => Some (String c b, a)
           | None => None
           end
  end.

(** [s.includes(pat)] *)
Definition includes (s pat : string) : bool :=
  match splitFirst pat s with Some _ => true | None => false end.

(** [GetSubstitution] of ECMA-262 for a string pattern (no capture groups):
    in the replacement text, [$$] is a dollar sign, [$&] the matched text,
    [$`] the text before the match and [$'] the text after it; any other
    dollar sign stands for itself. *)
Fixpoint getSubstitution (matched before after repl : string) : string :=
  match repl with
  | EmptyString => EmptyString
  | String "$" (String "$" r) => String "$" (getSubstitution matched before after r)
  | String "$" (String "&" r) => matched +:+ getSubstitution matched before after r
  | String "$" (String "`" r) => before +:+ getSubstitution matched before after r
  | String "$" (String "'" r) => after +:+ getSubstitution matched before after r
  | String c r => String c (getSubstitution matched before after r)
  end.

(** [s.replace(pat, repl)] for a string [pat]: the first occurrence only. *)
Definition replace (s pat repl : string) : string :=
  match splitFirst pat s with
  | None => s
  | Some (b, a) => b +:+ getSubstitution pat b a repl +:+ a
  end.

(** [s.split(sep)] for a one-character separator. *)
Fixpoint split (sep : ascii) (s : string) : list string :=
  match s with
  | EmptyString => [EmptyString]
  | String c s' =>
      if decide (c = sep) then EmptyString :: split sep s'
      else match split sep s' with
           | x :: xs => String c x :: xs
           | [] => [String c EmptyString]
           end
  end.

(** [parts.join(sep)] *)
Fixpoint join (sep : string) (parts : list string) : string :=
  match parts with
  | [] => EmptyString
  | [x] => x
  | x :: rest => x +:+ sep +:+ join sep rest
  end.

(** A number that is an integer, as a template literal prints it. *)
Definition numberToString (z : Z) : string :=
  NilZero.string_of_int (Z.to_int z).

(** No space in [s]. *)
Fixpoint spaceFree (s : string) : bool :=
  match s with
  | EmptyString => true
  | String c s' => negb (bool_decide (c = " "%char)) && spaceFree s'
  end.


End JsString.

Import JsString.

(** ** [formatUptime] *)

(** [formatUptime(startTime)], with the value of [Date.now()] made explicit. *)
Definition formatUptime (now startTime : Z) : string :=
  let diff := now - startTime in
  let secs := Z.rem (diff / 1000) 60 in
  let mins := Z.rem (diff / 60000) 60 in
  let hours := diff / 3600000 in
  numberToString hours +:+ "h " +:+ numberToString mins +:+ "m "
    +:+ numberToString secs +:+ "s".

(** The rendering the specification asks for: ["{h}h {m}m {s}s"] with the
    mathematical floor and modulo of the elapsed milliseconds. *)
Definition uptimeText (elapsed : Z) : string :=
  let s := (elapsed / 1000) mod 60 in
  let m := (elapsed / 60000) mod 60 in
  let h := elapsed / 3600000 in
  numberToString h +:+ "h " +:+ numberToString m +:+ "m "
    +:+ numberToString s +:+ "s".

(** ** Data model *)

(** A chat item as [pollChat] reads it: [authorDetails.displayName],
    [authorDetails.profileImageUrl] and [snippet.displayMessage].
    [channelId] is the provider's identifier of the author
    ([authorDetails.channelId]); the program never reads it. *)
Record Item := mkItem {
  channelId : string;
  displayName : string;
  profileImageUrl : option string;
  displayMessage : string }.

(** [res.data] of [youtube.liveChatMessages.list]. *)
Record Res := mkRes {
  items : list Item;
  resNextPageToken : option string;
  pollingIntervalMillis : option Z }.

Record Webhook := mkWebhook { enable : bool; url : string }.

Record TimedMessage := mkTimed { interval : Z; message : string }.

(** [config] *)
Record Config := mkConfig {
  badWords : list string;
  discordWebhook : option Webhook;
  timedMessages : list TimedMessage }.

(** A value of the [commands] object. *)
Record Command := mkCommand {
  response : string;
  description : string;
  aliases : list string }.

(** The statement of the program that issues a call. *)
Inductive Site :=
| AtPoll | AtRelay | AtPersist | AtWelcome | AtWarning | AtNotice | AtReply
| AtTimed.

(** The calls that leave the process. *)
Inductive Call :=
| ListMessages (pageToken : string)
| InsertMessage (text : string)
| Fetch (hook username : string) (avatar_url : option string) (content : string)
| WriteFile (content : list string).

(** One attempted call and the message of the error it raised, if any. *)
Record Event := mkEvent { site : Site; call : Call; raised : option string }.

Inductive Result (A : Type) :=
| Ok (a : A)
| Throw (msg : string).

Arguments Ok {A} a.
Arguments Throw {A} msg.

(** The world outside the process, as a function of the calls made so far. *)
Record Env := mkEnv {
  listMessages : list Event -> string -> Result Res;
  callFails : list Event -> Call -> option string;
  dateNow : list Event -> Z }.

(** The variables [pollChat] closes over ([nextPageToken], [firstRun], the
    [participants] set in insertion order), the calls made so far and the
    delays handed to [setTimeout]. *)
Record St := mkSt {
  nextPageToken : option string;
  firstRun : bool;
  participants : list string;
  trace : list Event;
  timers : list Z }.

#[global] Instance Site_eq_dec : EqDecision Site.
Proof. solve_decision. Defined.

#[global] Instance Call_eq_dec : EqDecision Call.
Proof. solve_decision. Defined.

#[global] Instance Event_eq_dec : EqDecision Event.
Proof. solve_decision. Defined.

Definition addEvent (e : Event) (st : St) : St :=
  mkSt (nextPageToken st) (firstRun st) (participants st) (trace st ++ [e])
    (timers st).

Definition addParticipant (user : string) (st : St) : St :=
  mkSt (nextPageToken st) (firstRun st) (participants st ++ [user]) (trace st)
    (timers st).

Definition addTimer (delay : Z) (st : St) : St :=
  mkSt (nextPageToken st) (firstRun st) (participants st) (trace st)
    (timers st ++ [delay]).

Definition setCursor (token : option string) (st : St) : St :=
  mkSt token false (participants st) (trace st) (timers st).

(** ** Computations that read and write the state and may throw *)

Definition M (A : Type) : Type := St -> St * Result A.

Definition ret {A} (a : A) : M A := fun st => (st, Ok a).

Definition throw {A} (msg : string) : M A := fun st => (st, Throw msg).

Definition bind {A B} (m : M A) (k : A -> M B) : M B :=
  fun st =>
    match m st with
    | (st', Ok a) => k a st'
    | (st', Throw e) => (st', Throw e)
    end.

Definition get : M St := fun st => (st, Ok st).

Definition modify (f : St -> St) : M unit := fun st => (f st, Ok tt).

(** [try { body } catch (err) { handler(err.message) }]: everything thrown
    inside [pollChat] is an [Error] object of the client library, of [fetch]
    or of the runtime, so [err.message] is a string. *)
Definition tryCatch {A} (body : M A) (handler : string -> M A) : M A :=
  fun st =>
    match body st with
    | (st', Ok a) => (st', Ok a)
    | (st', Throw e) => handler e st'
    end.

Declare Scope poll_scope.
Delimit Scope poll_scope with poll.
Notation "'let!' x := c1 'in' c2" := (bind c1 (fun x => c2))
  (at level 10, x name, c1 at level 100, c2 at level 200) : poll_scope.
Notation "c1 ;; c2" := (bind c1 (fun _ => c2))
  (at level 100, c2 at level 200, right associativity) : poll_scope.

(** [for (const item of l) { f(item) }] *)
Fixpoint forEach {A} (f : A -> M unit) (l : list A) : M unit :=
  match l with
  | [] => ret tt
  | x :: l' => (f x ;; forEach f l')%poll
  end.

(** ** The program *)

(** The own properties of [Object.prototype]: a property read on the plain
    object [commands] finds them when [commands] has no own property of that
    name. *)
Definition objectPrototypeKeys : list string :=
  [ "constructor"; "__proto__"; "hasOwnProperty"; "isPrototypeOf";
    "propertyIsEnumerable"; "toLocaleString"; "toString"; "valueOf";
    "__defineGetter__"; "__defineSetter__"; "__lookupGetter__";
    "__lookupSetter__" ].

(** What [commands[key]] evaluates to. *)
Inductive PropertyRead :=
| Own (c : Command)
| Inherited
| Undefined.

(** The message of the [TypeError] raised by [cmdObj.response.replace] when
    [cmdObj] is an inherited property, whose [response] is [undefined]. *)
Definition typeErrorReplace : string :=
  "Cannot read properties of undefined (reading 'replace')".

Definition welcomeText (user : string) : string :=
  "ðŸ‘‹ Welcome @" +:+ user +:+ " to the stream, Thanks for joining!".

Definition warningText (user : string) : string :=
  "@" +:+ user +:+ ", please avoid bad language!".

Definition noticeText (user message : string) : string :=
  "@" +:+ user +:+ " used a banned word: " +:+ dquote +:+ message +:+ dquote.

(** [message.split(" ").slice(1).join(" ")] *)
Definition commandArgs (message : string) : string :=
  join " " (drop 1 (split " "%char message)).

(** [cmdObj.response.replace("{user}", user).replace("{uptime}", uptime)] *)
Definition substitute (template user uptime : string) : string :=
  replace (replace template "{user}" user) "{uptime}" uptime.

(** The reply built from a command's [response] (lines 378 to 387). *)
Definition renderReply (template user uptime message : string) : string :=
  let reply := substitute template user uptime in
  if includes reply "{args}" then replace reply "{args}" (commandArgs message)
  else reply.

(** [pat] occurs in [s] between [b] and [a], and nowhere further left. *)
Definition firstOcc (pat b a s : string) : Prop :=
  s = b +:+ pat +:+ a /\
  forall b' a', s = b' +:+ pat +:+ a' -> (String.length b <= String.length b')%nat.

(** [res.data.pollingIntervalMillis || 5000] *)
Definition pollInterval (res : Res) : Z :=
  match pollingIntervalMillis res with
  | Some i => if i =? 0 then 5000 else i
  | None => 5000
  end.

(** [err.message.includes("quota") ? 60000 : 10000] *)
Definition backoff (msg : string) : Z :=
  if includes msg "quota" then 60000 else 10000.

Section Bot.

Variable config : Config.
(** The own properties of [commands], as loaded from the configuration (no
    trigger or alias is [__proto__]). *)
Variable commands : gmap string Command.
Variable startTime : Z.
Variable env : Env.

Local Open Scope poll_scope.

Definition commandsGet (key : string) : PropertyRead :=
  match commands !! key with
  | Some c => Own c
  | None => if bool_decide (key ∈ objectPrototypeKeys) then Inherited else Undefined
  end.

(** A call that leaves the process: logged, then it returns or throws. *)
Definition perform (s : Site) (c : Call) : M unit :=
  fun st =>
    let o := callFails env (trace st) c in
    (addEvent (mkEvent s c o) st,
     match o with None => Ok tt | Some e => Throw e end).

(** [sendMessage(youtube, liveChatId, text)] *)
Definition sendMessage (s : Site) (text : string) : M unit :=
  perform s (InsertMessage text).

Definition relayEnabled : bool :=
  match discordWebhook config with
  | Some w => enable w && negb (bool_decide (url w = ""))
  | None => false
  end.

Definition webhookUrl : string :=
  match discordWebhook config with Some w => url w | None => "" end.

(** [sendToDiscord(user, avatar, message)] *)
Definition sendToDiscord (s : Site) (user : string) (avatar : option string)
    (message : string) : M unit :=
  if relayEnabled then perform s (Fetch webhookUrl user avatar message)
  else ret tt.

(** [saveParticipants()]: the write is attempted and its error is swallowed. *)
Definition saveParticipants : M unit :=
  fun st =>
    let c := WriteFile (participants st) in
    (addEvent (mkEvent AtPersist c (callFails env (trace st) c)) st, Ok tt).

(** [Date.now()] *)
Definition now : M Z := fun st => (st, Ok (dateNow env (trace st))).

(** Lines 349 to 358: welcome first-time chatters. *)
Definition welcomeStep (user : string) : M unit :=
  let! st := get in
  if bool_decide (user ∈ participants st) then ret tt
  else
    modify (addParticipant user) ;;
    saveParticipants ;;
    sendMessage AtWelcome (welcomeText user).

(** [config.badWords.some((w) => message.toLowerCase().includes(w))] *)
Definition hasBadWord (message : string) : bool :=
  existsb (fun w => includes (toLowerCase message) w) (badWords config).

(** Lines 375 to 389: the command handler. *)
Definition commandStep (user message : string) : M unit :=
  match commandsGet (toLowerCase message) with
  | Undefined => ret tt
  | Inherited => throw typeErrorReplace
  | Own cmdObj =>
      let! t := now in
      sendMessage AtReply
        (renderReply (response cmdObj) user (formatUptime t startTime) message)
  end.

(** Lines 360 to 389: the word filter, then (unless it fired) the command
    handler. *)
Definition filterStep (user message : string) : M unit :=
  if hasBadWord message then
    sendMessage AtWarning (warningText user) ;;
    sendToDiscord AtNotice "Bot" None (noticeText user message)
  else commandStep user message.

(** The body of the loop over [res.data.items]. *)
Definition processItem (item : Item) : M unit :=
  let user := displayName item in
  let message := displayMessage item in
  sendToDiscord AtRelay user (profileImageUrl item) message ;;
  welcomeStep user ;;
  filterStep user message.

(** [youtube.liveChatMessages.list] with [pageToken: nextPageToken || ""]. *)
Definition listCall : M Res :=
  fun st =>
    let token := default "" (nextPageToken st) in
    let r := listMessages env (trace st) token in
    (addEvent
       (mkEvent AtPoll (ListMessages token)
          (match r with Ok _ => None | Throw e => Some e end)) st,
     r).

(** [setTimeout(pollChat, delay)] *)
Definition setTimeout (delay : Z) : M unit := modify (addTimer delay).

(** The [try] block of [pollChat]. *)
Definition pollBody : M unit :=
  let! res := listCall in
  let! st := get in
  (if firstRun st then ret tt else forEach processItem (items res)) ;;
  modify (setCursor (resNextPageToken res)) ;;
  setTimeout (pollInterval res).

(** [pollChat()] *)
Definition pollChat : M unit :=
  tryCatch pollBody (fun msg => setTimeout (backoff msg)).

(** One firing of the interval timer of a timed message:
    [sendMessage(...).catch(console.error)]. *)
Definition announce (tm : TimedMessage) : M unit :=
  tryCatch (sendMessage AtTimed (message tm)) (fun _ => ret tt).

(** The state when [listenAndRespond] starts, [loaded] being the participants
    read from the file. *)
Definition initialState (loaded : list string) : St :=
  mkSt None true loaded [] [].

(** The bot's life: polls and timed announcements, in any order. *)
Inductive step : St -> St -> Prop :=
| step_poll st : step st (fst (pollChat st))
| step_timed st tm :
    tm ∈ timedMessages config -> step st (fst (announce tm st)).

Definition reachable (loaded : list string) (st : St) : Prop :=
  rtc step (initialState loaded) st.

(** The event that [listCall] logs from [st]. *)
Definition listEvent (st : St) : Event :=
  mkEvent AtPoll (ListMessages (default "" (nextPageToken st)))
    (match listMessages env (trace st) (default "" (nextPageToken st)) with
     | Ok _ => None
     | Throw e => Some e
     end).

(** The event that the relay step logs from [st]. *)
Definition relayEvent (item : Item) (st : St) : Event :=
  let c := Fetch webhookUrl (displayName item) (profileImageUrl item)
             (displayMessage item) in
  mkEvent AtRelay c (callFails env (trace st) c).

(** The calls of a bot that has not yet had a successful poll. *)
Definition quiet (e : Event) : Prop :=
  (site e = AtPoll /\ raised e <> None) \/ site e = AtTimed.

(** The welcome replies for [user] among the calls made so far. *)
Definition isWelcomeFor (user : string) (e : Event) : bool :=
  bool_decide (site e = AtWelcome ∧ call e = InsertMessage (welcomeText user)).

Definition welcomesFor (user : string) (tr : list Event) : nat :=
  length (filter (fun e => isWelcomeFor user e = true) tr).

End Bot.

(** ** Invariants of computations *)

(** Running [m] from a state where [P] holds ends in a state where [P]
    holds, whether [m] returns or throws. *)
Definition preserves {A} (P : St -> Prop) (m : M A) : Prop :=
  forall st, P st -> P (fst (m st)).

(** [P] does not look at the calls made so far, nor at the participants. *)
Definition framed (P : St -> Prop) : Prop :=
  (forall e st, P st -> P (addEvent e st)) /\
  (forall u st, P st -> P (addParticipant u st)).

(** The cursor variables of [st] are those of [st0]. *)
Definition sameCursor (st0 st : St) : Prop :=
  nextPageToken st = nextPageToken st0 /\ firstRun st = firstRun st0.

Definition sameTimers (st0 st : St) : Prop := timers st = timers st0.

(** The welcome bookkeeping of a bot started with the participants
    [loaded]: a loaded name is a participant, no name was welcomed twice, and
    a welcomed name is a participant that was not loaded. *)
Definition welcomeInv (loaded : list string) (st : St) : Prop :=
  (forall u, u ∈ loaded -> u ∈ participants st) /\
  (forall u, (welcomesFor u (trace st) <= 1)%nat) /\
  (forall u, (1 <= welcomesFor u (trace st))%nat ->
             u ∈ participants st /\ u ∉ loaded).

(** ** Concrete runs *)

Module Scenario.

(** An environment whose [list] call always answers [r], whose other calls
    fail as [fails] says, and whose clock always reads [t]. *)
Definition scripted (r : Result Res) (fails : Call -> option string) (t : Z)
    : Env :=
  mkEnv (fun _ _ => r) (fun _ c => fails c) (fun _ => t).

Definition noFailure (c : Call) : option string := None.

(** The webhook cannot be reached. *)
Definition fetchDown (c : Call) : option string :=
  match c with
  | Fetch _ _ _ _ => Some "request to https://discord.example/hook failed"
  | _ => None
  end.

Definition relayOn : Config :=
  mkConfig [] (Some (mkWebhook true "https://discord.example/hook")) [].

Definition relayOff : Config := mkConfig [] None [].

(** A bot that has polled before, with the participants [known]. *)
Definition running (known : list string) : St :=
  mkSt (Some "p1") false known [] [].

Definition batch (l : list Item) (suggested : option Z) : Result Res :=
  Ok (mkRes l (Some "p2") suggested).

Definition annHello : Item := mkItem "UC-ann" "ann" None "hello".
Definition bobHi : Item := mkItem "UC-bob" "bob" None "hi all".

(** One author, seen under two display names. *)
Definition renamed : list Item :=
  [ mkItem "UC-1" "ann" None "hello"; mkItem "UC-1" "annie" None "me again" ].

Definition sayTable : gmap string Command :=
  {[ "!say" := mkCommand "{user} says: {args}" "" [] ]}.

Definition darnTable : gmap string Command :=
  {[ "darn" := mkCommand "{user} said it" "" [] ]}.

Definition darnBanned : Config := mkConfig ["Darn"] None [].

End Scenario.


(** ** Startup: the command table, the participants file, the broadcast *)

(** An entry of [botYml.commands]. A missing [trigger] or [response] is the
    empty string: the test at line 104 treats both alike. [defAliases] is
    [None] when [cmd.aliases] is not an array. *)
Record CommandDef := mkDef {
  defTrigger : string;
  defResponse : string;
  defDescription : option string;
  defAliases : option (list string) }.

(** [cmd.trigger && cmd.response] *)
Definition defValid (d : CommandDef) : bool :=
  negb (bool_decide (defTrigger d = "")) && negb (bool_decide (defResponse d = "")).

(** The object stored for the trigger and for every alias of [d]. *)
Definition entryOf (d : CommandDef) : Command :=
  mkCommand (defResponse d) (default "" (defDescription d))
    (default [] (defAliases d)).

(** [commands[key] = value] on the own properties of [commands]: assigning
    [__proto__] creates no own property (it replaces the prototype instead). *)
Definition assign (key : string) (value : Command) (m : gmap string Command)
    : gmap string Command :=
  if bool_decide (key = "__proto__") then m else <[key := value]> m.

(** The body of [botYml.commands.forEach] (lines 104 to 121). *)
Definition registerCommand (m : gmap string Command) (d : CommandDef)
    : gmap string Command :=
  if defValid d then
    foldl (fun m alias => assign (toLowerCase alias) (entryOf d) m)
      (assign (toLowerCase (defTrigger d)) (entryOf d) m)
      (default [] (defAliases d))
  else m.

(** The own properties of [commands] once the configuration is loaded. *)
Definition loadCommands (defs : list CommandDef) : gmap string Command :=
  foldl registerCommand ∅ defs.

(** The keys under which [d] is stored. *)
Definition defKeys (d : CommandDef) : list string :=
  toLowerCase (defTrigger d) :: (toLowerCase <$> default [] (defAliases d)).

(** [d] is registered and stores something under [key]. *)
Definition defines (key : string) (d : CommandDef) : bool :=
  defValid d && bool_decide (key ∈ defKeys d).

(** [participants.add(user)] on the insertion-ordered content of the set. *)
Definition setAdd (user : string) (set : list string) : list string :=
  if bool_decide (user ∈ set) then set else set ++ [user].

(** [new Set(array)] *)
Definition newSet (array : list string) : list string :=
  foldl (fun set user => setAdd user set) [] array.

(** What reading [participants.json] gives. *)
Inductive FileRead :=
| Missing
| Unreadable (msg : string)
| Content (array : list string).

(** Lines 129 to 136: the set starts empty, and is replaced by the file's
    array unless the file is missing or reading it throws. *)
Definition loadParticipants (file : FileRead) : list string :=
  match file with
  | Content array => newSet array
  | Missing | Unreadable _ => []
  end.

(** The array written by the last attempted [fs.writeFileSync]. *)
Definition lastWrite (tr : list Event) : option (list string) :=
  last (omap (fun e => match call e with WriteFile l => Some l | _ => None end) tr).

(** An item of [liveBroadcasts.list]: [status?.lifeCycleStatus] and
    [snippet.liveChatId]. *)
Record Broadcast := mkBroadcast {
  lifeCycleStatus : option string;
  liveChatId : string }.

(** A startup function returns, or ends the process with an exit code. *)
Inductive Startup (A : Type) :=
| Started (a : A)
| Exit (code : Z).

Arguments Started {A} a.
Arguments Exit {A} code.

Definition isLive (b : Broadcast) : bool :=
  bool_decide (lifeCycleStatus b = Some "live").

(** [getLiveChatId], from [res.data.items] on. *)
Definition getLiveChatId (broadcasts : list Broadcast) : Startup string :=
  match broadcasts with
  | [] => Exit 1
  | _ =>
      match List.find isLive broadcasts with
      | None => Exit 1
      | Some active => Started (liveChatId active)
      end
  end.

(** ** The calls the bot can make *)

Section Shapes.

Variable config : Config.

(** The calls made while one chat item is processed. *)
Inductive itemEvent : Event -> Prop :=
| ie_relay user avatar message o :
    relayEnabled config = true ->
    itemEvent (mkEvent AtRelay (Fetch (webhookUrl config) user avatar message) o)
| ie_persist content o : itemEvent (mkEvent AtPersist (WriteFile content) o)
| ie_welcome user o :
    itemEvent (mkEvent AtWelcome (InsertMessage (welcomeText user)) o)
| ie_warning user o :
    itemEvent (mkEvent AtWarning (InsertMessage (warningText user)) o)
| ie_notice user message o :
    relayEnabled config = true ->
    itemEvent (mkEvent AtNotice
                 (Fetch (webhookUrl config) "Bot" None (noticeText user message)) o)
| ie_reply text o : itemEvent (mkEvent AtReply (InsertMessage text) o).

(** The calls made in a bot's life. *)
Inductive lifeEvent : Event -> Prop :=
| le_poll token o : lifeEvent (mkEvent AtPoll (ListMessages token) o)
| le_timed tm o :
    tm ∈ timedMessages config ->
    lifeEvent (mkEvent AtTimed (InsertMessage (message tm)) o)
| le_item e : itemEvent e -> lifeEvent e.

(** An invariant that survives the calls a chat item can cause. *)
Definition itemStable (P : St -> Prop) : Prop :=
  forall e s,
    itemEvent e -> site e <> AtWelcome -> site e <> AtPersist ->
    P s -> P (addEvent e s).

End Shapes.

(** The texts of the welcome replies among the calls [tr], in order. *)
Definition welcomeTexts (tr : list Event) : list string :=
  omap (fun e =>
          if bool_decide (site e = AtWelcome) then
            match call e with InsertMessage t => Some t | _ => None end
          else None) tr.

(** The store of a bot started with [loaded]: the loaded names followed by the
    names welcomed since, in the order of their welcome; it is what the last
    write attempt wrote; and it repeats no name if [loaded] repeats none. *)
Definition storeInv (loaded : list string) (st : St) : Prop :=
  (exists added,
     participants st = loaded ++ added /\
     welcomeTexts (trace st) = welcomeText <$> added) /\
  default loaded (lastWrite (trace st)) = participants st /\
  (NoDup loaded -> NoDup (participants st)).

(** The number of [list] calls among the calls [tr]. *)
Definition pollCount (tr : list Event) : nat :=
  length (filter (fun e => site e = AtPoll) tr).

(** ** Concrete lives *)

Module Life.

(** The state after the first two polls of a bot started with [loaded]. *)
Definition twoPolls (config : Config) (commands : gmap string Command)
    (startTime : Z) (env : Env) (loaded : list string) : St :=
  fst (pollChat config commands startTime env
         (fst (pollChat config commands startTime env (initialState loaded)))).

(** A bot with the relay enabled and one timed message, in a chat where ann
    and bob write. *)
Definition talkative : Config :=
  mkConfig ["darn"] (Some (mkWebhook true "https://discord.example/hook"))
    [mkTimed 60000 "Remember to subscribe, {user}!"].

Definition chat : Env :=
  Scenario.scripted
    (Scenario.batch
       [ mkItem "UC-ann" "ann" None "hello";
         mkItem "UC-bob" "bob" None "Oh DARN it" ] None)
    Scenario.noFailure 0.

Definition afterChat : St := twoPolls talkative ∅ 0 chat ["zed"].

End Life.

(** ** More concrete inputs *)

Module Inputs.

Definition helpDefs : list CommandDef :=
  [ mkDef "!Help" "Old help for {user}" None (Some ["!H"]);
    mkDef "!uptime" "" None (Some ["!up"]);
    mkDef "!HELP" "Type !uptime, {user}" (Some "help") (Some ["!Commands"]) ].

Definition broadcasts : list Broadcast :=
  [ mkBroadcast (Some "complete") "chat-old";
    mkBroadcast None "chat-none";
    mkBroadcast (Some "live") "chat-1";
    mkBroadcast (Some "live") "chat-2" ].

Definition muted : Config := mkConfig ["spam"; ""] None [].

Definition quietEnv (l : list Item) : Env :=
  Scenario.scripted (Scenario.batch l None) Scenario.noFailure 0.


End Inputs.

(** ** Where the model is the code *)

(** Every character of [s] is an ASCII character. On such text
    [toLowerCase] above is JavaScript's [toLowerCase]. *)
Fixpoint asciiOnly (s : string) : bool :=
  match s with
  | EmptyString => true
  | String c s' => (nat_of_ascii c <? 128)%nat && asciiOnly s'
  end.


Module Failures.

(** The webhook fails for the messages of bob only. *)
Definition bobUnreachable (c : Call) : option string :=
  match c with
  | Fetch _ username _ _ =>
      if bool_decide (username = "bob") then Some "socket hang up" else None
  | _ => None
  end.

(** The provider refuses the [list] call for lack of quota. *)
Definition outOfQuota : Env :=
  mkEnv (fun _ _ => Throw "The request cannot be completed because you have exceeded your quota.")
    (fun _ _ => None) (fun _ => 0).

End Failures.

(** * Properties *)

(** ** Strings *)

Section StringFacts.

Local Arguments String.append : simpl nomatch.

Lemma append_nil_r (s : string) : s +:+ "" = s.
Proof. induction s as [|c s IH]; simpl; [reflexivity | now rewrite IH]. Qed.

Lemma append_assoc (s t u : string) : (s +:+ t) +:+ u = s +:+ t +:+ u.
Proof. induction s as [|c s IH]; simpl; [reflexivity | now rewrite IH]. Qed.

Lemma length_append (s t : string) :
  String.length (s +:+ t) = (String.length s + String.length t)%nat.
Proof. induction s as [|c s IH]; simpl; [reflexivity | now rewrite IH]. Qed.

Lemma append_inj_r (s s' t : string) : s +:+ t = s' +:+ t -> s = s'.
Proof.
  revert s'. induction s as [|c s IH]; intros [|c' s'] H; simpl in H.
  - reflexivity.
  - apply (f_equal String.length) in H. simpl in H.
    rewrite length_append in H. lia.
  - apply (f_equal String.length) in H. simpl in H.
    rewrite length_append in H. lia.
  - injection H as -> H. f_equal. now apply IH.
Qed.


Lemma prefix_append (pat r : string) : String.prefix pat (pat +:+ r) = true.
Proof.
  induction pat as [|c pat IH]; simpl.
  - now destruct r.
  - destruct (ascii_dec c c); [exact IH | congruence].
Qed.

Lemma prefix_inv (pat s : string) :
  String.prefix pat s = true -> s = pat +:+ dropStr (String.length pat) s.
Proof.
  revert s. induction pat as [|c pat IH]; intros [|d s] H; simpl in *;
    try reflexivity; try discriminate.
  destruct (ascii_dec c d) as [->|]; [|discriminate].
  f_equal. now apply IH.
Qed.

Lemma splitFirst_Some (pat s b a : string) :
  splitFirst pat s = Some (b, a) -> firstOcc pat b a s.
Proof.
  revert b a. induction s as [|c s IH]; intros b a H; cbn [splitFirst] in H.
  - destruct pat; simpl in H; [|discriminate].
    injection H as <- <-. split; [reflexivity | intros; simpl; lia].
  - destruct (String.prefix pat (String c s)) eqn:P.
    + injection H as <- <-. split; [|intros; simpl; lia].
      simpl. now apply prefix_inv.
    + destruct (splitFirst pat s) as [[b0 a0]|]; [|discriminate].
      injection H as <- <-. destruct (IH _ _ eq_refl) as [E Hmin].
      split; [simpl; now rewrite <- E|].
      intros [|c' b'] a' E'; simpl in E'.
      * rewrite E', prefix_append in P. discriminate.
      * injection E' as _ E'. simpl. apply Hmin in E'. lia.
Qed.

Lemma splitFirst_None (pat s b a : string) :
  splitFirst pat s = None -> s <> b +:+ pat +:+ a.
Proof.
  revert b. induction s as [|c s IH]; intros b H E; cbn [splitFirst] in H.
  - destruct pat; simpl in H; [discriminate|].
    destruct b; simpl in E; discriminate.
  - destruct (String.prefix pat (String c s)) eqn:P; [discriminate|].
    destruct (splitFirst pat s) as [[b0 a0]|] eqn:S; [discriminate|].
    destruct b as [|c' b]; simpl in E.
    + rewrite E, prefix_append in P. discriminate.
    + injection E as _ E. exact (IH b eq_refl E).
Qed.






Lemma includes_true_iff (s pat : string) :
  includes s pat = true <-> exists b a, s = b +:+ pat +:+ a.
Proof.
  unfold includes. destruct (splitFirst pat s) as [[b a]|] eqn:S.
  - split; [|reflexivity]. intros _. exists b, a.
    now destruct (splitFirst_Some _ _ _ _ S).
  - split; [discriminate|]. intros (b & a & E).
    now apply splitFirst_None with (b := b) (a := a) in S.
Qed.

Lemma includes_false_iff (s pat : string) :
  includes s pat = false <-> forall b a, s <> b +:+ pat +:+ a.
Proof.
  rewrite <- not_true_iff_false, includes_true_iff. split.
  - intros H b a E. apply H. now exists b, a.
  - intros H (b & a & E). now apply (H b a).
Qed.

Lemma split_nonempty (sep : ascii) (s : string) : split sep s <> [].
Proof.
  destruct s as [|c s]; simpl; [discriminate|].
  case_decide; [discriminate|]. now destruct (split sep s).
Qed.

Lemma join_split (sep : ascii) (s : string) :
  join (String sep "") (split sep s) = s.
Proof.
  induction s as [|c s IH]; simpl; [reflexivity|].
  pose proof (split_nonempty sep s) as N.
  case_decide as E.
  - subst c. destruct (split sep s) as [|x xs]; [contradiction|].
    cbn [join]. cbn [join] in IH. now rewrite IH.
  - destruct (split sep s) as [|x xs]; [contradiction|].
    rewrite <- IH. now destruct xs.
Qed.

Lemma split_first_token (tok rest : string) :
  spaceFree tok = true ->
  split " " (tok +:+ " " +:+ rest) = tok :: split " " rest.
Proof.
  change (" " +:+ rest) with (String " "%char rest).
  induction tok as [|c tok IH]; simpl; intros H.
  - reflexivity.
  - apply andb_true_iff in H as [Hc Ht].
    apply negb_true_iff, bool_decide_eq_false in Hc.
    rewrite decide_False by exact Hc. now rewrite (IH Ht).
Qed.

End StringFacts.

(** The argument extraction of the command handler drops the first token of
    the message and the space after it, and nothing else. *)
Lemma commandArgs_after_first_space (tok rest : string) :
  spaceFree tok = true -> commandArgs (tok +:+ " " +:+ rest) = rest.
Proof.
  intros H. unfold commandArgs. rewrite (split_first_token tok rest H).
  cbn [drop]. apply join_split.
Qed.

(** ** Uptime *)




(** C8. For every elapsed duration [now - startTime] (a time that has passed, so
    not negative), [formatUptime] renders ["{h}h {m}m {s}s"] where
    [s = floor(elapsed/1000) mod 60], [m = floor(elapsed/60000) mod 60] and
    [h = floor(elapsed/3600000)]; 3725000 ms renders as ["1h 2m 5s"]. *)
Theorem C8_uptime_rendering (t startTime : Z) (H : startTime <= t) :
  formatUptime t startTime = uptimeText (t - startTime) /\
  (t - startTime = 3725000 -> formatUptime t startTime = "1h 2m 5s").
Proof.
  assert (E : formatUptime t startTime = uptimeText (t - startTime)).
  { unfold formatUptime, uptimeText. cbv zeta.
    rewrite !Z.rem_mod_nonneg by (try apply Z.div_pos; lia). reflexivity. }
  split; [exact E|]. intros D. rewrite E, D. reflexivity.
Qed.

Lemma C8_uptime_rendering_witness :
  0 <= 3725000 /\ formatUptime 3725000 0 = "1h 2m 5s".
Proof.
  split; [lia|].
  apply (C8_uptime_rendering 3725000 0); [lia | reflexivity].
Defined.

(** ** Template rendering *)




(** ** Computations *)

Section MonadFacts.

Context {A B : Type}.

Lemma preserves_ret (P : St -> Prop) (a : A) : preserves P (ret a).
Proof. intros st H. exact H. Qed.

Lemma preserves_throw (P : St -> Prop) (e : string) : preserves P (@throw A e).
Proof. intros st H. exact H. Qed.

Lemma preserves_get (P : St -> Prop) : preserves P get.
Proof. intros st H. exact H. Qed.

Lemma preserves_bind (P : St -> Prop) (m : M A) (k : A -> M B) :
  preserves P m -> (forall a, preserves P (k a)) -> preserves P (bind m k).
Proof.
  intros Hm Hk st H. unfold bind. specialize (Hm st H).
  destruct (m st) as [st1 [a|e]]; simpl in *; [now apply Hk | exact Hm].
Qed.

Lemma preserves_tryCatch (P : St -> Prop) (m : M A) (h : string -> M A) :
  preserves P m -> (forall e, preserves P (h e)) -> preserves P (tryCatch m h).
Proof.
  intros Hm Hh st H. unfold tryCatch. specialize (Hm st H).
  destruct (m st) as [st1 [a|e]]; simpl in *; [exact Hm | now apply Hh].
Qed.

End MonadFacts.

Lemma preserves_forEach (P : St -> Prop) {A} (f : A -> M unit) (l : list A) :
  (forall x, preserves P (f x)) -> preserves P (forEach f l).
Proof.
  intros Hf. induction l as [|x l IH]; simpl.
  - apply preserves_ret.
  - apply preserves_bind; [apply Hf | intros _; exact IH].
Qed.

Lemma forEach_app {A} (f : A -> M unit) (l1 l2 : list A) (s : St) :
  forEach f (l1 ++ l2) s = bind (forEach f l1) (fun _ => forEach f l2) s.
Proof.
  revert s. induction l1 as [|x l1 IH]; intros s; [reflexivity|].
  cbn [app forEach]. unfold bind.
  destruct (f x s) as [s1 [[]|e]]; [|reflexivity].
  rewrite IH. reflexivity.
Qed.

Lemma preserves_modify (P : St -> Prop) (f : St -> St) :
  (forall st, P st -> P (f st)) -> preserves P (modify f).
Proof. intros Hf st H. now apply Hf. Qed.

(** ** The pipeline *)

Section BotFacts.

Variable config : Config.
Variable commands : gmap string Command.
Variable startTime : Z.
Variable env : Env.

#[local] Abbreviation perform := (perform env).
#[local] Abbreviation sendMessage := (sendMessage env).
#[local] Abbreviation sendToDiscord := (sendToDiscord config env).
#[local] Abbreviation saveParticipants := (saveParticipants env).
#[local] Abbreviation welcomeStep := (welcomeStep env).
#[local] Abbreviation commandStep := (commandStep commands startTime env).
#[local] Abbreviation filterStep := (filterStep config commands startTime env).
#[local] Abbreviation processItem := (processItem config commands startTime env).
#[local] Abbreviation listCall := (listCall env).
#[local] Abbreviation pollBody := (pollBody config commands startTime env).
#[local] Abbreviation pollChat := (pollChat config commands startTime env).
#[local] Abbreviation announce := (announce env).
#[local] Abbreviation listEvent := (listEvent env).
#[local] Abbreviation relayEvent := (relayEvent config env).

Lemma preserves_perform (P : St -> Prop) (s : Site) (c : Call) :
  (forall o st, P st -> P (addEvent (mkEvent s c o) st)) ->
  preserves P (perform s c).
Proof. intros H st HP. now apply H. Qed.

Lemma preserves_sendToDiscord (P : St -> Prop) (s : Site) user avatar message :
  (forall e st, site e = s -> P st -> P (addEvent e st)) ->
  preserves P (sendToDiscord s user avatar message).
Proof.
  intros H. unfold sendToDiscord. destruct (relayEnabled config).
  - apply preserves_perform. intros o st. now apply H.
  - apply preserves_ret.
Qed.

Lemma preserves_saveParticipants (P : St -> Prop) :
  (forall e st, site e = AtPersist -> P st -> P (addEvent e st)) ->
  preserves P saveParticipants.
Proof. intros H st HP. now apply H. Qed.

Lemma preserves_commandStep (P : St -> Prop) user message :
  (forall e st, site e = AtReply -> P st -> P (addEvent e st)) ->
  preserves P (commandStep user message).
Proof.
  intros H. unfold commandStep.
  destruct (commandsGet commands (toLowerCase message)).
  - apply preserves_bind; [intros st HP; exact HP|].
    intros t. apply preserves_perform. intros o st. now apply H.
  - apply preserves_throw.
  - apply preserves_ret.
Qed.

Lemma preserves_filterStep (P : St -> Prop) user message :
  (forall e st, site e <> AtWelcome -> P st -> P (addEvent e st)) ->
  preserves P (filterStep user message).
Proof.
  intros H. unfold filterStep. destruct (hasBadWord config message).
  - apply preserves_bind.
    + apply preserves_perform. intros o st. now apply H.
    + intros _. apply preserves_sendToDiscord. intros e st E. apply H.
      now rewrite E.
  - apply preserves_commandStep. intros e st E. apply H. now rewrite E.
Qed.

Lemma preserves_processItem (P : St -> Prop) (item : Item) :
  (forall e st, site e <> AtWelcome -> P st -> P (addEvent e st)) ->
  (forall user, preserves P (welcomeStep user)) ->
  preserves P (processItem item).
Proof.
  intros H W. unfold processItem. cbv zeta.
  apply preserves_bind.
  - apply preserves_sendToDiscord. intros e st E. apply H. now rewrite E.
  - intros _. apply preserves_bind; [apply W|].
    intros _. now apply preserves_filterStep.
Qed.

Lemma preserves_welcomeStep_framed (P : St -> Prop) (user : string) :
  framed P -> preserves P (welcomeStep user).
Proof.
  intros [He Hu]. unfold welcomeStep.
  apply preserves_bind; [apply preserves_get|]. intros st0.
  destruct (bool_decide (user ∈ participants st0)); [apply preserves_ret|].
  apply preserves_bind; [apply preserves_modify, Hu|]. intros _.
  apply preserves_bind; [apply preserves_saveParticipants; intros; now apply He|].
  intros _. apply preserves_perform. intros. now apply He.
Qed.

Lemma preserves_items_framed (P : St -> Prop) (l : list Item) :
  framed P -> preserves P (forEach processItem l).
Proof.
  intros F. apply preserves_forEach. intros item.
  apply preserves_processItem.
  - intros e st _. apply F.
  - intros user. now apply preserves_welcomeStep_framed.
Qed.

Lemma preserves_listCall (P : St -> Prop) :
  (forall e st, site e = AtPoll -> P st -> P (addEvent e st)) ->
  preserves P listCall.
Proof. intros H st HP. now apply H. Qed.

(** An invariant of the steps of [pollChat] holds when it returns, once it
    holds after the [list] call. *)
Lemma pollChat_after_list (P : St -> Prop) (st : St) :
  (forall e s, site e <> AtWelcome -> P s -> P (addEvent e s)) ->
  (forall user, preserves P (welcomeStep user)) ->
  (forall t s, P s -> P (setCursor t s)) ->
  (forall d s, P s -> P (addTimer d s)) ->
  P (addEvent (listEvent st) st) -> P (fst (pollChat st)).
Proof.
  intros HE HW HC HT H.
  unfold pollChat, tryCatch, pollBody, bind at 1.
  unfold listCall. unfold listEvent in H.
  destruct (listMessages env (trace st) (default "" (nextPageToken st)))
    as [res|e]; cbv beta iota zeta; [|apply HT; exact H].
  set (st1 := addEvent _ st) in *.
  set (k := bind get _).
  change (P (fst (tryCatch k (fun msg => setTimeout (backoff msg)) st1))).
  apply preserves_tryCatch;
    [|intros msg; unfold setTimeout; apply preserves_modify, HT|exact H].
  subst k. apply preserves_bind; [apply preserves_get|]. intros s.
  apply preserves_bind.
  - destruct (firstRun s); [apply preserves_ret|].
    apply preserves_forEach. intros item. now apply preserves_processItem.
  - intros _. apply preserves_bind; [apply preserves_modify, HC|].
    intros _. unfold setTimeout. apply preserves_modify, HT.
Qed.

Lemma pollChat_preserves (P : St -> Prop) :
  (forall e s, site e <> AtWelcome -> P s -> P (addEvent e s)) ->
  (forall user, preserves P (welcomeStep user)) ->
  (forall t s, P s -> P (setCursor t s)) ->
  (forall d s, P s -> P (addTimer d s)) ->
  preserves P pollChat.
Proof.
  intros HE HW HC HT st H. apply pollChat_after_list; auto.
Qed.

Lemma announce_preserves (P : St -> Prop) (tm : TimedMessage) :
  (forall e s, site e <> AtWelcome -> P s -> P (addEvent e s)) ->
  preserves P (announce tm).
Proof.
  intros HE. apply preserves_tryCatch; [|intros; apply preserves_ret].
  apply preserves_perform. intros o s. now apply HE.
Qed.

(** What the [try] block leaves behind, by the way it ends. *)
Lemma pollBody_outcome (st : St) :
  match pollBody st with
  | (st', Ok _) =>
      exists res,
        listMessages env (trace st) (default "" (nextPageToken st)) = Ok res /\
        timers st' = timers st ++ [pollInterval res] /\
        nextPageToken st' = resNextPageToken res /\ firstRun st' = false
  | (st', Throw _) => sameTimers st st' /\ sameCursor st st'
  end.
Proof.
  unfold pollBody, bind at 1.
  assert (F : framed (fun s => sameTimers st s /\ sameCursor st s)).
  { split; intros ? s Hs; exact Hs. }
  assert (H0 : sameTimers st st /\ sameCursor st st) by (repeat split).
  pose proof (preserves_listCall _ (fun e s _ => proj1 F e s) st H0) as HL.
  unfold listCall in *. simpl in HL.
  destruct (listMessages env (trace st) (default "" (nextPageToken st)))
    as [res|e] eqn:L; simpl; [|exact HL].
  unfold bind at 1, get.
  set (st1 := addEvent _ st) in *.
  set (loop := if firstRun st1 then ret tt else forEach processItem (items res)).
  assert (HP : preserves (fun s => sameTimers st s /\ sameCursor st s) loop).
  { subst loop. destruct (firstRun st1);
      [apply preserves_ret | now apply preserves_items_framed]. }
  specialize (HP st1 HL). unfold bind at 1.
  destruct (loop st1) as [st2 [[]|e]]; simpl in *; [|exact HP].
  exists res. destruct HP as [HT _]. unfold sameTimers in HT.
  repeat split. simpl. now rewrite HT.
Qed.

(** C4, amended. After every successful poll the next poll is scheduled after
    the provider's suggested interval when it supplies one that is not zero,
    and after 5000 ms when it supplies none (or zero); no minimum of the
    program's own is applied. *)
Theorem C4_next_poll_interval (st st' : St)
    (H : pollBody st = (st', Ok tt)) :
  exists res,
    listMessages env (trace st) (default "" (nextPageToken st)) = Ok res /\
    timers (fst (pollChat st)) = timers st ++ [pollInterval res] /\
    (forall i, pollingIntervalMillis res = Some i -> i <> 0 ->
               pollInterval res = i) /\
    (pollingIntervalMillis res = None \/ pollingIntervalMillis res = Some 0 ->
     pollInterval res = 5000).
Proof.
  pose proof (pollBody_outcome st) as O. unfold pollChat, tryCatch.
  rewrite H in *. destruct O as (res & L & T & _). exists res.
  repeat split; [exact L | exact T | |].
  - intros i E N. unfold pollInterval. rewrite E.
    destruct (Z.eqb_spec i 0); [contradiction | reflexivity].
  - intros [E|E]; unfold pollInterval; now rewrite E.
Qed.

(** C6. Every error raised during a poll is caught: [pollChat] always returns,
    having handed exactly one delay to [setTimeout]; that delay is 60000 ms
    when the error's message contains [quota] (it is some text, then [quota],
    then some text) and 10000 ms for any other error. *)
Theorem C6_errors_caught_and_backoff (st : St) :
  exists st' delay,
    pollChat st = (st', Ok tt) /\
    timers st' = timers st ++ [delay] /\
    forall s msg,
      pollBody st = (s, Throw msg) ->
      ((exists b a, msg = b +:+ "quota" +:+ a) -> delay = 60000) /\
      ((forall b a, msg <> b +:+ "quota" +:+ a) -> delay = 10000).
Proof.
  pose proof (pollBody_outcome st) as O. unfold pollChat, tryCatch.
  destruct (pollBody st) as [s [[]|msg]].
  - destruct O as (res & _ & T & _). exists s, (pollInterval res).
    repeat split; try exact T; intros; discriminate.
  - destruct O as [T _]. unfold sameTimers in T.
    eexists _, (backoff msg). split; [reflexivity|]. split.
    + simpl. now rewrite T.
    + intros ? ? [= _ <-]. unfold backoff. split.
      * intros Q. apply includes_true_iff in Q. now rewrite Q.
      * intros Q. apply includes_false_iff in Q. now rewrite Q.
Qed.

(** C9. If any error is thrown during a poll (by the [list] call or while the
    messages of the batch are processed), [nextPageToken] and [firstRun] are
    left unchanged, so the next poll asks for the same page again. *)
Theorem C9_cursor_unchanged_on_error (st st' : St) (msg : string)
    (H : pollBody st = (st', Throw msg)) :
  let after := fst (pollChat st) in
  nextPageToken after = nextPageToken st /\
  firstRun after = firstRun st /\
  exists e more,
    trace (fst (pollChat after)) = trace after ++ e :: more /\
    site e = AtPoll /\
    call e = ListMessages (default "" (nextPageToken st)).
Proof.
  pose proof (pollBody_outcome st) as O. cbv zeta.
  assert (E : fst (pollChat st) = addTimer (backoff msg) st').
  { unfold pollChat, tryCatch. now rewrite H. }
  rewrite H in O. destruct O as [_ [Tk Fr]]. rewrite E.
  repeat split; [exact Tk | exact Fr |].
  set (after := addTimer (backoff msg) st').
  exists (listEvent after).
  cut (exists more,
         trace (fst (pollChat after)) = trace after ++ listEvent after :: more).
  { intros [more Hm]. exists more. repeat split; [exact Hm|].
    simpl. now rewrite Tk. }
  apply (pollChat_after_list
           (fun s => exists more, trace s = trace after ++ listEvent after :: more)).
  - intros e s _ [more Hm]. exists (more ++ [e]). simpl. rewrite Hm.
    now rewrite <- app_assoc.
  - intros user. apply preserves_welcomeStep_framed. split.
    + intros e s [more Hm]. exists (more ++ [e]). simpl. rewrite Hm.
      now rewrite <- app_assoc.
    + intros u s Hs. exact Hs.
  - intros t s Hs. exact Hs.
  - intros d s Hs. exact Hs.
  - exists []. reflexivity.
Qed.

(** What [pollChat] does while [firstRun] is still set. *)
Lemma pollChat_firstRun (st : St) :
  firstRun st = true ->
  pollChat st =
    match listMessages env (trace st) (default "" (nextPageToken st)) with
    | Ok res =>
        (mkSt (resNextPageToken res) false (participants st)
           (trace st ++ [listEvent st]) (timers st ++ [pollInterval res]),
         Ok tt)
    | Throw msg => (addTimer (backoff msg) (addEvent (listEvent st) st), Ok tt)
    end.
Proof.
  intros F.
  unfold pollChat, tryCatch, pollBody, bind at 1.
  unfold listCall, listEvent.
  destruct (listMessages env (trace st) (default "" (nextPageToken st)))
    as [res|msg]; [|reflexivity].
  unfold bind, get. simpl. rewrite F. reflexivity.
Qed.

(** As long as [firstRun] is set, no poll has succeeded: the participants are
    the loaded ones, the cursor is the initial one and nothing but failed
    [list] calls and timed announcements has left the process. *)
Lemma firstRun_history (loaded : list string) (st : St) :
  reachable config commands startTime env loaded st ->
  firstRun st = true ->
  participants st = loaded /\ nextPageToken st = None /\ Forall quiet (trace st).
Proof.
  unfold reachable. revert st.
  apply (rtc_ind_r (fun st => firstRun st = true ->
    participants st = loaded /\ nextPageToken st = None /\ Forall quiet (trace st))).
  - intros _. repeat split. constructor.
  - intros y z Hyz Hstep IH. destruct Hstep as [y|y tm Htm].
    + intros Fz. pose proof (pollBody_outcome y) as O.
      assert (Fy : firstRun y = true).
      { revert Fz O. unfold pollChat, tryCatch.
        destruct (pollBody y) as [s [[]|msg]]; simpl.
        - intros Fz (res & _ & _ & _ & Ff). congruence.
        - intros Fz [_ [_ Ff]]. congruence. }
      destruct (IH Fy) as (Hp & Hn & Hq).
      revert Fz. rewrite (pollChat_firstRun y Fy).
      destruct (listMessages env (trace y) (default "" (nextPageToken y)))
        as [res|msg] eqn:L; [discriminate|]. intros _. simpl.
      repeat split; [exact Hp | exact Hn |].
      apply Forall_app. split; [exact Hq|]. constructor; [|constructor].
      left. unfold listEvent. rewrite L. split; [reflexivity | discriminate].
    + unfold announce, tryCatch, sendMessage,
        perform.
      destruct (callFails env (trace y) (InsertMessage (message tm)));
        simpl; intros Fy; destruct (IH Fy) as (Hp & Hn & Hq);
        (repeat split; [exact Hp | exact Hn |]);
        (apply Forall_app; split; [exact Hq|]);
        (constructor; [right; reflexivity | constructor]).
Qed.

(** C7. The first successful poll after startup (the bot's first poll whose
    [list] call returns: [firstRun] is still set) issues no reply, relay,
    welcome or moderation call, however many items it returns: besides
    scheduling the next poll it changes only the cursor and the first-run
    flag, the participants are still the loaded ones, and all the bot has
    done since startup is failed [list] calls, timed announcements and this
    [list] call. *)
Theorem C7_first_poll_has_no_side_effect (loaded : list string) (st : St)
    (res : Res)
    (R : reachable config commands startTime env loaded st)
    (F : firstRun st = true)
    (L : listMessages env (trace st) (default "" (nextPageToken st)) = Ok res) :
  pollChat st =
    (mkSt (resNextPageToken res) false loaded
       (trace st ++ [mkEvent AtPoll (ListMessages "") None])
       (timers st ++ [pollInterval res]),
     Ok tt) /\
  Forall quiet (trace st).
Proof.
  destruct (firstRun_history loaded st R F) as (Hp & Hn & Hq).
  split; [|exact Hq].
  rewrite (pollChat_firstRun st F). unfold listEvent. rewrite L, Hp, Hn.
  reflexivity.
Qed.

(** *** Moderation and commands *)

(** A message whose lowercased text is no key of [commands] (and no property
    inherited from [Object.prototype]) gets no reply, whatever the templates of
    the commands hold. *)
Lemma commandStep_exact_lookup (user message : string) (st : St) :
  commands !! toLowerCase message = None ->
  toLowerCase message ∉ objectPrototypeKeys ->
  commandStep user message st = (st, Ok tt).
Proof.
  intros L N. unfold commandStep, commandsGet.
  now rewrite L, bool_decide_eq_false_2 by exact N.
Qed.

(** A banned word that is configured in lower case and occurs in the
    lowercased message is detected. *)
Lemma hasBadWord_detects (w message : string) :
  w ∈ badWords config -> includes (toLowerCase message) w = true ->
  hasBadWord config message = true.
Proof.
  intros Hw Hi. unfold hasBadWord. apply existsb_exists.
  exists w. split; [now apply list_elem_of_In | exact Hi].
Qed.

(** A detected message is answered with the warning, then the notice is
    relayed; the command handler is not reached. *)
Lemma filterStep_moderated (user message : string) :
  hasBadWord config message = true ->
  filterStep user message =
    bind (sendMessage AtWarning (warningText user))
      (fun _ => sendToDiscord AtNotice "Bot" None (noticeText user message)).
Proof. intros H. unfold filterStep. now rewrite H. Qed.

(** *** Welcomes *)

Lemma welcomeText_inj (u v : string) : welcomeText u = welcomeText v -> u = v.
Proof.
  unfold welcomeText. intros H. apply String.app_inj in H.
  now apply append_inj_r in H.
Qed.

Lemma welcomesFor_snoc (u : string) (tr : list Event) (e : Event) :
  welcomesFor u (tr ++ [e]) =
  (welcomesFor u tr + (if isWelcomeFor u e then 1 else 0))%nat.
Proof.
  unfold welcomesFor. rewrite filter_app, length_app. f_equal.
  rewrite filter_cons, filter_nil.
  destruct (isWelcomeFor u e); case_decide; simpl; congruence.
Qed.

Lemma isWelcomeFor_other (u : string) (e : Event) :
  site e <> AtWelcome -> isWelcomeFor u e = false.
Proof.
  intros H. unfold isWelcomeFor. apply bool_decide_eq_false. now intros [? _].
Qed.

Lemma isWelcomeFor_welcome (u user : string) (o : option string) :
  isWelcomeFor u (mkEvent AtWelcome (InsertMessage (welcomeText user)) o)
  = bool_decide (u = user).
Proof.
  unfold isWelcomeFor. cbn [site call]. apply bool_decide_ext. split.
  - intros [_ H]. apply welcomeText_inj. congruence.
  - now intros ->.
Qed.

Lemma welcomesFor_other (u : string) (e : Event) (st : St) :
  site e <> AtWelcome ->
  welcomesFor u (trace (addEvent e st)) = welcomesFor u (trace st).
Proof.
  intros H. cbn [trace addEvent].
  rewrite welcomesFor_snoc, isWelcomeFor_other by exact H. lia.
Qed.

Lemma welcomeInv_other_event (loaded : list string) (e : Event) (st : St) :
  site e <> AtWelcome -> welcomeInv loaded st -> welcomeInv loaded (addEvent e st).
Proof.
  intros H (I1 & I2 & I3). repeat split.
  - exact I1.
  - intros u. rewrite welcomesFor_other by exact H. apply I2.
  - rewrite welcomesFor_other in * by exact H. now apply I3.
  - rewrite welcomesFor_other in * by exact H. now apply I3.
Qed.

Lemma welcomeInv_welcomeStep (loaded : list string) (user : string) :
  preserves (welcomeInv loaded) (welcomeStep user).
Proof.
  intros st (I1 & I2 & I3).
  unfold welcomeStep, bind at 1, get.
  case_bool_decide as Hin; [exact (conj I1 (conj I2 I3))|].
  assert (Z0 : welcomesFor user (trace st) = 0%nat).
  { destruct (welcomesFor user (trace st)) eqn:W; [reflexivity|].
    destruct (I3 user) as [? _]; [lia | contradiction]. }
  assert (Hl : user ∉ loaded) by (intros ?; now apply Hin, I1).
  unfold bind, modify, saveParticipants, sendMessage,
    perform.
  cbn [fst addEvent addParticipant trace participants nextPageToken firstRun
         timers].
  set (pev := mkEvent AtPersist _ _). set (o := callFails _ _ _).
  assert (W : forall u,
    welcomesFor u ((trace st ++ [pev]) ++
                   [mkEvent AtWelcome (InsertMessage (welcomeText user)) o])
    = (welcomesFor u (trace st) + (if bool_decide (u = user) then 1 else 0))%nat).
  { intros u. rewrite !welcomesFor_snoc, isWelcomeFor_welcome.
    rewrite (isWelcomeFor_other u pev) by discriminate. lia. }
  assert (G : welcomeInv loaded
    (mkSt (nextPageToken st) (firstRun st) (participants st ++ [user])
       ((trace st ++ [pev]) ++
        [mkEvent AtWelcome (InsertMessage (welcomeText user)) o]) (timers st))).
  { repeat split; cbn [trace participants].
    - intros u Hu. apply elem_of_app. left. now apply I1.
    - intros u. rewrite W. case_bool_decide as E; [subst; lia|].
      specialize (I2 u). lia.
    - rewrite W in H. apply elem_of_app.
      case_bool_decide as E; [subst; right; now apply list_elem_of_singleton|].
      left. apply I3. lia.
    - rewrite W in H. case_bool_decide as E; [now subst|]. apply I3. lia. }
  destruct o; exact G.
Qed.

(** At most one welcome per display name in a bot's life, and none for a
    name that was loaded from the participants file. *)
Lemma reachable_welcomeInv (loaded : list string) (st : St) :
  reachable config commands startTime env loaded st -> welcomeInv loaded st.
Proof.
  unfold reachable. revert st. apply (rtc_ind_r (welcomeInv loaded)).
  - repeat split; simpl; auto; unfold welcomesFor in *; simpl in *; lia.
  - intros y z _ [s|s tm _] IH.
    + apply pollChat_preserves; auto using welcomeInv_other_event,
        welcomeInv_welcomeStep.
    + apply announce_preserves; auto using welcomeInv_other_event.
Qed.

(** *** One message *)

Lemma processItem_relay (item : Item) (st : St) :
  relayEnabled config = true ->
  processItem item st =
    match raised (relayEvent item st) with
    | None =>
        bind (welcomeStep (displayName item))
             (fun _ => filterStep (displayName item) (displayMessage item))
             (addEvent (relayEvent item st) st)
    | Some msg => (addEvent (relayEvent item st) st, Throw msg)
    end.
Proof.
  intros E. unfold processItem. cbv zeta.
  unfold bind at 1, sendToDiscord. rewrite E.
  unfold perform, relayEvent. cbn [raised].
  now destruct (callFails env (trace st) _).
Qed.

Lemma framed_extends (tr : list Event) :
  framed (fun s => exists more, trace s = tr ++ more).
Proof.
  split.
  - intros e s [more Hm]. exists (more ++ [e]). cbn [trace addEvent].
    now rewrite Hm, <- app_assoc.
  - intros u s Hs. exact Hs.
Qed.

(** C1, amended. With the relay enabled, for every message of a processed
    batch the relay call is the first call made for that message; when it
    returns, the welcome check, the moderation check and the command dispatch
    run for that message; when it raises an error, none of them runs for that
    message, the later messages of the batch are not processed, and the poll
    ends in the error handler, which reschedules it after the backoff with the
    cursor unchanged. The message may stand anywhere in the batch: [earlier]
    are the messages before it, processed without an error. *)
Theorem C1_relay_first_and_failure_aborts_batch (item : Item)
    (rest : list Item) (st : St) (E : relayEnabled config = true) :
  let user := displayName item in
  let message := displayMessage item in
  let ev := mkEvent AtRelay
              (Fetch (webhookUrl config) user (profileImageUrl item) message)
              (callFails env (trace st)
                 (Fetch (webhookUrl config) user (profileImageUrl item) message)) in
  (exists more, trace (fst (processItem item st)) = trace st ++ ev :: more) /\
  (raised ev = None ->
   processItem item st =
     bind (welcomeStep user) (fun _ => filterStep user message) (addEvent ev st)) /\
  (forall msg, raised ev = Some msg ->
     forEach processItem (item :: rest) st = (addEvent ev st, Throw msg)) /\
  (forall st0 res earlier msg,
     firstRun st0 = false ->
     listMessages env (trace st0) (default "" (nextPageToken st0)) = Ok res ->
     items res = earlier ++ item :: rest ->
     forEach processItem earlier
       (addEvent (mkEvent AtPoll (ListMessages (default "" (nextPageToken st0)))
                    None) st0)
     = (st, Ok tt) ->
     raised ev = Some msg ->
     pollChat st0 = (addTimer (backoff msg) (addEvent ev st), Ok tt) /\
     nextPageToken (fst (pollChat st0)) = nextPageToken st0 /\
     firstRun (fst (pollChat st0)) = firstRun st0).
Proof.
  cbv zeta. pose proof (processItem_relay item st E) as R.
  unfold relayEvent in R. cbv zeta in R.
  set (ev := mkEvent AtRelay _ _) in *.
  split; [|split; [|split]].
  - rewrite R. destruct (raised ev) as [msg|].
    + exists []. reflexivity.
    + assert (P0 : exists more, trace (addEvent ev st) = (trace st ++ [ev]) ++ more)
        by (exists []; cbn [trace addEvent]; now rewrite app_nil_r).
      pose proof (framed_extends (trace st ++ [ev])) as F.
      assert (Q : preserves
                (fun s => exists more, trace s = (trace st ++ [ev]) ++ more)
                (bind (welcomeStep (displayName item))
                   (fun _ => filterStep (displayName item) (displayMessage item)))).
      { apply preserves_bind; [now apply preserves_welcomeStep_framed|].
        intros _. apply preserves_filterStep. intros e s _. apply F. }
      destruct (Q _ P0) as [more Hm]. exists more. rewrite Hm.
      now rewrite <- app_assoc.
  - intros N. now rewrite R, N.
  - intros msg N. cbn [forEach]. unfold bind at 1. now rewrite R, N.
  - intros st0 res earlier msg F0 L I Hpre N.
    assert (G : pollChat st0 = (addTimer (backoff msg) (addEvent ev st), Ok tt)).
    { unfold pollChat, tryCatch, pollBody, bind at 1.
      unfold listCall. rewrite L. cbv beta iota zeta.
      unfold bind at 1, get. cbv beta iota zeta. cbn [firstRun addEvent].
      rewrite F0, I. unfold bind at 1. rewrite forEach_app.
      unfold bind at 1. rewrite Hpre. cbn [forEach]. unfold bind at 1.
      rewrite R, N. reflexivity. }
    split; [exact G|]. rewrite G. cbn [fst nextPageToken firstRun addTimer addEvent].
    assert (Fr : framed (sameCursor st0)) by (split; intros ? s Hs; exact Hs).
    pose proof (preserves_items_framed (sameCursor st0) earlier Fr
                  (addEvent (mkEvent AtPoll
                     (ListMessages (default "" (nextPageToken st0))) None) st0)
                  (conj eq_refl eq_refl)) as K.
    rewrite Hpre in K. exact K.
Qed.

Lemma welcomeStep_new (user : string) (st : St) :
  user ∉ participants st ->
  let st2 := addEvent
    (mkEvent AtPersist (WriteFile (participants st ++ [user]))
       (callFails env (trace st) (WriteFile (participants st ++ [user]))))
    (addParticipant user st) in
  let o := callFails env (trace st2) (InsertMessage (welcomeText user)) in
  welcomeStep user st =
    (addEvent (mkEvent AtWelcome (InsertMessage (welcomeText user)) o) st2,
     match o with None => Ok tt | Some msg => Throw msg end).
Proof.
  intros N. cbv zeta. unfold welcomeStep, bind at 1, get.
  rewrite bool_decide_eq_false_2 by exact N. reflexivity.
Qed.

(** C2, amended. The store is keyed by display name ([authorId] is never
    read). For every processed message whose relay step did not raise, if the
    display name is not in the store, then it is inserted, a write of the store
    is attempted (an error of the write is swallowed) and exactly one welcome
    send interpolating the display name is attempted; when that send returns,
    processing of the same message continues with moderation and command
    dispatch, and when it raises, processing stops there. Over a bot's life at
    most one welcome send is attempted per display name, and none for a name
    loaded from the participants file. *)
Theorem C2_welcome_once_per_display_name (item : Item) (st st1 : St)
    (loaded : list string) (life : St)
    (N : displayName item ∉ participants st)
    (Rl : sendToDiscord AtRelay (displayName item) (profileImageUrl item)
            (displayMessage item) st = (st1, Ok tt))
    (R : reachable config commands startTime env loaded life) :
  let user := displayName item in
  let st2 := addEvent
    (mkEvent AtPersist (WriteFile (participants st1 ++ [user]))
       (callFails env (trace st1) (WriteFile (participants st1 ++ [user]))))
    (addParticipant user st1) in
  let wev := mkEvent AtWelcome (InsertMessage (welcomeText user))
               (callFails env (trace st2) (InsertMessage (welcomeText user))) in
  (raised wev = None ->
   processItem item st = filterStep user (displayMessage item) (addEvent wev st2)) /\
  (forall msg, raised wev = Some msg ->
     processItem item st = (addEvent wev st2, Throw msg)) /\
  user ∈ participants (fst (processItem item st)) /\
  welcomesFor user (trace (fst (processItem item st)))
    = S (welcomesFor user (trace st)) /\
  (forall u, (welcomesFor u (trace life) <= 1)%nat /\
             (u ∈ loaded -> welcomesFor u (trace life) = 0%nat)).
Proof.
  cbv zeta.
  assert (P1 : participants st1 = participants st /\
               welcomesFor (displayName item) (trace st1)
               = welcomesFor (displayName item) (trace st)).
  { revert Rl. unfold sendToDiscord, perform.
    destruct (relayEnabled config); [|intros [= <-]; now split].
    destruct (callFails env (trace st) _); intros [= <-].
    split; [reflexivity|]. now apply welcomesFor_other. }
  destruct P1 as [Hp Hw].
  assert (N1 : displayName item ∉ participants st1) by now rewrite Hp.
  pose proof (welcomeStep_new (displayName item) st1 N1) as W. cbv zeta in W.
  set (st2 := addEvent (mkEvent AtPersist _ _) _) in *.
  set (o := callFails env (trace st2) _) in *.
  set (wev := mkEvent AtWelcome _ o) in *.
  assert (PI : processItem item st =
    match o with
    | None => filterStep (displayName item) (displayMessage item)
                (addEvent wev st2)
    | Some msg => (addEvent wev st2, Throw msg)
    end).
  { unfold processItem. cbv zeta. unfold bind at 1. rewrite Rl.
    unfold bind at 1. rewrite W. now destruct o. }
  assert (C : welcomesFor (displayName item) (trace (addEvent wev st2))
              = S (welcomesFor (displayName item) (trace st))).
  { subst st2 wev. cbn [trace addEvent addParticipant].
    rewrite !welcomesFor_snoc, isWelcomeFor_welcome.
    rewrite isWelcomeFor_other by discriminate.
    rewrite bool_decide_eq_true_2 by reflexivity. lia. }
  assert (I : displayName item ∈ participants (addEvent wev st2)).
  { subst st2. cbn [participants addEvent addParticipant].
    apply elem_of_app. right. now apply list_elem_of_singleton. }
  assert (K : displayName item ∈ participants (fst (processItem item st)) /\
              welcomesFor (displayName item) (trace (fst (processItem item st)))
              = S (welcomesFor (displayName item) (trace st))).
  { rewrite PI. destruct o; [now split|].
    apply (preserves_filterStep
             (fun s => displayName item ∈ participants s /\
                       welcomesFor (displayName item) (trace s)
                       = S (welcomesFor (displayName item) (trace st)))).
    - intros e s He [? Hs]. split; [assumption|].
      now rewrite welcomesFor_other.
    - now split. }
  split; [|split; [|split; [|split]]].
  - intros Ho. change (o = None) in Ho. now rewrite PI, Ho.
  - intros msg Ho. change (o = Some msg) in Ho. now rewrite PI, Ho.
  - apply K.
  - apply K.
  - intros u. destruct (reachable_welcomeInv loaded life R) as (I1 & I2 & I3).
    split; [apply I2|]. intros Hu.
    destruct (welcomesFor u (trace life)) eqn:Wu; [reflexivity|].
    destruct (I3 u) as [_ Hn]; [lia | contradiction].
Qed.

End BotFacts.

(** ** Concrete runs *)

Section Runs.

Import Scenario.

(** C1, refuted as stated. The relay call for the first message of a batch of
    two fails: nobody is welcomed, the second message is not processed, and
    the poll ends in the error handler with the 10000 ms backoff. *)
Lemma C1_relay_failure_blocks_the_batch :
  fst (pollChat relayOn ∅ 0
         (scripted (batch [annHello; bobHi] None) fetchDown 0) (running []))
  = mkSt (Some "p1") false []
      [ mkEvent AtPoll (ListMessages "p1") None;
        mkEvent AtRelay
          (Fetch "https://discord.example/hook" "ann" None "hello")
          (Some "request to https://discord.example/hook failed") ]
      [10000].
Proof. vm_compute. reflexivity. Qed.

Lemma C1_relay_first_and_failure_aborts_batch_witness :
  relayEnabled relayOn = true /\
  pollChat relayOn ∅ 0
    (scripted (batch [annHello; bobHi] None) Failures.bobUnreachable 0)
    (running ["ann"; "bob"])
  = (mkSt (Some "p1") false ["ann"; "bob"]
       [ mkEvent AtPoll (ListMessages "p1") None;
         mkEvent AtRelay
           (Fetch "https://discord.example/hook" "ann" None "hello") None;
         mkEvent AtRelay
           (Fetch "https://discord.example/hook" "bob" None "hi all")
           (Some "socket hang up") ]
       [10000],
     Ok tt).
Proof.
  split; [reflexivity|].
  etransitivity.
  - apply (proj2 (proj2 (proj2
      (C1_relay_first_and_failure_aborts_batch relayOn ∅ 0
         (scripted (batch [annHello; bobHi] None) Failures.bobUnreachable 0)
         bobHi []
         (mkSt (Some "p1") false ["ann"; "bob"]
            [ mkEvent AtPoll (ListMessages "p1") None;
              mkEvent AtRelay
                (Fetch "https://discord.example/hook" "ann" None "hello") None ]
            [])
         eq_refl)))
      (running ["ann"; "bob"]) (mkRes [annHello; bobHi] (Some "p2") None)
      [annHello] "socket hang up").
    + reflexivity.
    + reflexivity.
    + reflexivity.
    + vm_compute. reflexivity.
    + vm_compute. reflexivity.
  - vm_compute. reflexivity.
Defined.

(** C2, refuted as stated. One author ([channelId] UC-1) chats under two
    display names: the store receives the two display names and never the
    author's identifier, and the author is welcomed twice. *)
Lemma C2_store_is_keyed_by_display_name :
  map channelId renamed = ["UC-1"; "UC-1"] /\
  participants
    (fst (pollChat relayOff ∅ 0
            (scripted (batch renamed None) noFailure 0) (running [])))
  = ["ann"; "annie"] /\
  trace
    (fst (pollChat relayOff ∅ 0
            (scripted (batch renamed None) noFailure 0) (running [])))
  = [ mkEvent AtPoll (ListMessages "p1") None;
      mkEvent AtPersist (WriteFile ["ann"]) None;
      mkEvent AtWelcome (InsertMessage (welcomeText "ann")) None;
      mkEvent AtPersist (WriteFile ["ann"; "annie"]) None;
      mkEvent AtWelcome (InsertMessage (welcomeText "annie")) None ].
Proof. vm_compute. repeat split. Qed.

Lemma C2_welcome_once_per_display_name_witness :
  ("ann" ∉ participants (running [])) /\
  welcomesFor "ann"
    (trace (fst (processItem relayOff ∅ 0
                   (scripted (batch [annHello] None) noFailure 0)
                   annHello (running []))))
  = 1%nat.
Proof.
  assert (N : "ann" ∉ participants (running [])) by (intros H; inversion H).
  split; [exact N|].
  apply (proj1 (proj2 (proj2 (proj2
    (C2_welcome_once_per_display_name relayOff ∅ 0
       (scripted (batch [annHello] None) noFailure 0)
       annHello (running []) (running []) [] (initialState []) N eq_refl
       (rtc_refl _ _)))))).
Defined.

(** C3, evaluated. The command [!say] has a template with [{args}]: the
    message [!say hello] still is looked up as a whole, matches no key and gets
    no reply; only the bare trigger matches, and its arguments are empty. *)
Lemma C3_trigger_with_arguments_is_not_matched :
  trace (fst (pollChat relayOff sayTable 0
                (scripted (batch [mkItem "UC-ann" "ann" None "!say hello"] None)
                   noFailure 0)
                (running ["ann"])))
  = [ mkEvent AtPoll (ListMessages "p1") None ] /\
  trace (fst (pollChat relayOff sayTable 0
                (scripted (batch [mkItem "UC-ann" "ann" None "!say"] None)
                   noFailure 0)
                (running ["ann"])))
  = [ mkEvent AtPoll (ListMessages "p1") None;
      mkEvent AtReply (InsertMessage "ann says: ") None ].
Proof. vm_compute. split; reflexivity. Qed.

(** C4, refuted as stated. A suggested interval of 0 is answered with 5000 ms
    and one of 1000 with 1000 ms: no minimum [m] makes both the maximum of the
    suggestion and [m]. *)
Lemma C4_no_implementation_minimum :
  timers (fst (pollChat relayOff ∅ 0
                 (scripted (batch [] (Some 0)) noFailure 0) (running [])))
  = [5000] /\
  timers (fst (pollChat relayOff ∅ 0
                 (scripted (batch [] (Some 1000)) noFailure 0) (running [])))
  = [1000] /\
  ~ exists m, Z.max 0 m = 5000 /\ Z.max 1000 m = 1000.
Proof.
  split; [vm_compute; reflexivity|]. split; [vm_compute; reflexivity|].
  intros [m [H1 H2]]. lia.
Qed.

Lemma C4_next_poll_interval_witness :
  timers (fst (pollChat relayOff ∅ 0
                 (scripted (batch [annHello] (Some 2000)) noFailure 0)
                 (running ["ann"])))
  = [2000].
Proof.
  assert (H : pollBody relayOff ∅ 0
                (scripted (batch [annHello] (Some 2000)) noFailure 0)
                (running ["ann"])
              = (mkSt (Some "p2") false ["ann"]
                   [mkEvent AtPoll (ListMessages "p1") None] [2000], Ok tt))
    by (vm_compute; reflexivity).
  destruct (C4_next_poll_interval relayOff ∅ 0
              (scripted (batch [annHello] (Some 2000)) noFailure 0)
              (running ["ann"]) _ H) as (res & L & T & _).
  injection L as <-. exact T.
Defined.

(** C5, evaluated. The configured banned word is [Darn], with a capital: the
    message [darn] (and any spelling of it) is lowercased but the banned word
    is not, so nothing is detected; no warning and no notice are produced and
    the command of that name is answered. *)
Lemma C5_capitalised_banned_word_is_not_detected :
  hasBadWord darnBanned "darn" = false /\
  hasBadWord darnBanned "Darn" = false /\
  trace (fst (pollChat darnBanned darnTable 0
                (scripted (batch [mkItem "UC-ann" "ann" None "Darn"] None)
                   noFailure 0)
                (running ["ann"])))
  = [ mkEvent AtPoll (ListMessages "p1") None;
      mkEvent AtReply (InsertMessage "ann said it") None ].
Proof. vm_compute. repeat split. Qed.

Lemma C6_errors_caught_and_backoff_witness :
  timers (fst (pollChat relayOff ∅ 0 Failures.outOfQuota (running []))) = [60000].
Proof.
  destruct (C6_errors_caught_and_backoff relayOff ∅ 0 Failures.outOfQuota
              (running [])) as (st' & delay & E & T & D).
  rewrite E. cbn [fst]. rewrite T.
  destruct (D (addEvent
                 (mkEvent AtPoll (ListMessages "p1")
                    (Some "The request cannot be completed because you have exceeded your quota."))
                 (running []))
              "The request cannot be completed because you have exceeded your quota."
              eq_refl) as [Q _].
  rewrite Q; [reflexivity|].
  exists "The request cannot be completed because you have exceeded your ", ".".
  reflexivity.
Defined.

Lemma C7_first_poll_has_no_side_effect_witness :
  pollChat relayOn sayTable 0
    (scripted (batch [annHello; bobHi] (Some 3000)) noFailure 0)
    (initialState ["zed"])
  = (mkSt (Some "p2") false ["zed"]
       [mkEvent AtPoll (ListMessages "") None] [3000],
     Ok tt).
Proof.
  apply (proj1 (C7_first_poll_has_no_side_effect relayOn sayTable 0
    (scripted (batch [annHello; bobHi] (Some 3000)) noFailure 0)
    ["zed"] (initialState ["zed"])
    (mkRes [annHello; bobHi] (Some "p2") (Some 3000))
    (rtc_refl _ _) eq_refl eq_refl)).
Defined.

Lemma C9_cursor_unchanged_on_error_witness :
  let st := fst (pollChat relayOn ∅ 0
                   (scripted (batch [annHello; bobHi] None) fetchDown 0)
                   (running [])) in
  nextPageToken st = Some "p1" /\ firstRun st = false.
Proof.
  assert (H : pollBody relayOn ∅ 0
                (scripted (batch [annHello; bobHi] None) fetchDown 0)
                (running [])
              = (addEvent
                   (mkEvent AtRelay
                      (Fetch "https://discord.example/hook" "ann" None "hello")
                      (Some "request to https://discord.example/hook failed"))
                   (addEvent (mkEvent AtPoll (ListMessages "p1") None)
                      (running [])),
                 Throw "request to https://discord.example/hook failed"))
    by (vm_compute; reflexivity).
  destruct (C9_cursor_unchanged_on_error relayOn ∅ 0
              (scripted (batch [annHello; bobHi] None) fetchDown 0)
              (running []) _ _ H) as (Hn & Hf & _).
  split; [exact Hn | exact Hf].
Defined.

End Runs.

(** ** The command table *)

Section CommandTable.

Lemma toLowerChar_idempotent (c : ascii) :
  toLowerChar (toLowerChar c) = toLowerChar c.
Proof. destruct c as [[] [] [] [] [] [] [] []]; reflexivity. Qed.

Lemma toLowerCase_idempotent (s : string) :
  toLowerCase (toLowerCase s) = toLowerCase s.
Proof.
  induction s as [|c s IH]; simpl; [reflexivity|].
  now rewrite toLowerChar_idempotent, IH.
Qed.

Lemma assign_lookup (key k : string) (v : Command) (m : gmap string Command) :
  assign key v m !! k =
  if bool_decide (k = key) && negb (bool_decide (k = "__proto__"))
  then Some v else m !! k.
Proof.
  unfold assign. case_bool_decide as P.
  - case_bool_decide as E; [|reflexivity]. subst.
    now rewrite bool_decide_eq_true_2.
  - case_bool_decide as E; simpl.
    + subst. rewrite bool_decide_eq_false_2 by exact P.
      simpl. apply lookup_insert_eq.
    + rewrite lookup_insert_ne by congruence. reflexivity.
Qed.

Lemma assign_aliases_lookup (v : Command) (l : list string)
    (m : gmap string Command) (k : string) :
  foldl (fun m alias => assign (toLowerCase alias) v m) m l !! k =
  if bool_decide (k ∈ toLowerCase <$> l) && negb (bool_decide (k = "__proto__"))
  then Some v else m !! k.
Proof.
  revert m. induction l as [|a l IH]; intros m; simpl.
  - reflexivity.
  - rewrite IH, assign_lookup.
    destruct (bool_decide (k = "__proto__")) eqn:P; simpl.
    + now rewrite !andb_false_r.
    + rewrite !andb_true_r, ?fmap_cons.
      rewrite (bool_decide_ext _ _ (elem_of_cons _ _ _)), bool_decide_or.
      change (list_fmap string string toLowerCase l) with (toLowerCase <$> l).
      now destruct (bool_decide (k = toLowerCase a)),
        (bool_decide (k ∈ toLowerCase <$> l)).
Qed.

Lemma registerCommand_lookup (m : gmap string Command) (d : CommandDef)
    (k : string) :
  registerCommand m d !! k =
  if defines k d && negb (bool_decide (k = "__proto__"))
  then Some (entryOf d) else m !! k.
Proof.
  unfold registerCommand, defines, defKeys.
  destruct (defValid d); simpl; [|reflexivity].
  rewrite assign_aliases_lookup, assign_lookup.
  destruct (bool_decide (k = "__proto__")) eqn:P; simpl.
  - now rewrite !andb_false_r.
  - rewrite !andb_true_r.
    rewrite (bool_decide_ext _ _ (elem_of_cons _ _ _)), bool_decide_or.
    now destruct (bool_decide (k = toLowerCase (defTrigger d))),
      (bool_decide (k ∈ toLowerCase <$> default [] (defAliases d))).
Qed.

Lemma loadCommands_lookup (defs : list CommandDef) (k : string) :
  loadCommands defs !! k =
  if bool_decide (k = "__proto__") then None
  else entryOf <$> last (filter (fun d => defines k d = true) defs).
Proof.
  unfold loadCommands. induction defs as [|d defs IH] using rev_ind.
  - simpl. rewrite lookup_empty. now case_bool_decide.
  - rewrite foldl_snoc, registerCommand_lookup, IH, filter_app.
    destruct (bool_decide (k = "__proto__")) eqn:P; simpl.
    + now rewrite andb_false_r.
    + rewrite andb_true_r, filter_cons, filter_nil.
      destruct (defines k d); simpl.
      * now rewrite last_snoc.
      * now rewrite app_nil_r.
Qed.

(** X1. The command table after loading: a key (other than [__proto__]) holds
    the entry of the last definition, in file order, that has a trigger and a
    response and whose lowercased trigger or one of whose lowercased aliases
    is that key; it holds nothing when there is no such definition. *)
Theorem X1_last_definition_wins (defs : list CommandDef) (k : string) :
  loadCommands defs !! k =
  if bool_decide (k = "__proto__") then None
  else entryOf <$> last (filter (fun d => defines k d = true) defs).
Proof. apply loadCommands_lookup. Qed.

(** X2. A definition without a trigger or without a response registers
    nothing, its aliases included: the table is the one loaded without it. *)
Theorem X2_invalid_definition_is_skipped (before after : list CommandDef)
    (d : CommandDef) (H : defTrigger d = "" \/ defResponse d = "") :
  loadCommands (before ++ d :: after) = loadCommands (before ++ after).
Proof.
  unfold loadCommands. rewrite !foldl_app. simpl. f_equal.
  unfold registerCommand, defValid.
  destruct H as [-> | ->]; simpl; [reflexivity|].
  now rewrite andb_false_r.
Qed.

(** X3. Every key of the loaded table is in lower case and every entry has a
    response, so that the lookup under the lowercased message text finds a
    command whatever the case of the trigger in the file and of the message. *)
Theorem X3_keys_are_lowercase (defs : list CommandDef) (k : string)
    (c : Command) (H : loadCommands defs !! k = Some c) :
  toLowerCase k = k /\ response c <> "" /\
  exists d, d ∈ defs /\ c = entryOf d /\ k ∈ defKeys d.
Proof.
  rewrite loadCommands_lookup in H.
  case_bool_decide; [discriminate|].
  destruct (last _) as [d|] eqn:L; [|discriminate]. injection H as <-.
  apply last_Some_elem_of, list_elem_of_filter in L as [D Hd].
  unfold defines in D. apply andb_true_iff in D as [V K].
  apply bool_decide_eq_true in K.
  repeat split.
  - unfold defKeys in K. apply elem_of_cons in K as [-> | K].
    + apply toLowerCase_idempotent.
    + apply list_elem_of_fmap in K as (a & -> & _).
      apply toLowerCase_idempotent.
  - unfold defValid in V. apply andb_true_iff in V as [_ V].
    apply negb_true_iff, bool_decide_eq_false in V. exact V.
  - exists d. now repeat split.
Qed.

End CommandTable.

(** ** Shapes of the calls *)

Section ShapeFacts.

Variable config : Config.
Variable commands : gmap string Command.
Variable startTime : Z.
Variable env : Env.

#[local] Abbreviation welcomeStep := (welcomeStep env).
#[local] Abbreviation filterStep := (filterStep config commands startTime env).
#[local] Abbreviation processItem := (processItem config commands startTime env).
#[local] Abbreviation pollBody := (pollBody config commands startTime env).
#[local] Abbreviation pollChat := (pollChat config commands startTime env).
#[local] Abbreviation announce := (announce env).
#[local] Abbreviation listEvent := (listEvent env).
#[local] Abbreviation reachable := (reachable config commands startTime env).
#[local] Abbreviation itemStable := (itemStable config).

Lemma keeps_sendToDiscord_relay (P : St -> Prop) user avatar message :
  itemStable P ->
  preserves P (sendToDiscord config env AtRelay user avatar message).
Proof.
  intros H. unfold sendToDiscord.
  destruct (relayEnabled config) eqn:E; [|apply preserves_ret].
  apply preserves_perform. intros o s.
  apply H; [now constructor | discriminate | discriminate].
Qed.

Lemma keeps_filterStep (P : St -> Prop) user message :
  itemStable P -> preserves P (filterStep user message).
Proof.
  intros H. unfold filterStep. destruct (hasBadWord config message).
  - apply preserves_bind.
    + apply preserves_perform. intros o s.
      apply H; [constructor | discriminate | discriminate].
    + intros _. unfold sendToDiscord.
      destruct (relayEnabled config) eqn:E; [|apply preserves_ret].
      apply preserves_perform. intros o s.
      apply H; [now constructor | discriminate | discriminate].
  - unfold commandStep. destruct (commandsGet commands (toLowerCase message)).
    + apply preserves_bind; [intros s Hs; exact Hs|]. intros t.
      apply preserves_perform. intros o s.
      apply H; [constructor | discriminate | discriminate].
    + apply preserves_throw.
    + apply preserves_ret.
Qed.

Lemma keeps_items (P : St -> Prop) (l : list Item) :
  itemStable P -> (forall user, preserves P (welcomeStep user)) ->
  preserves P (forEach processItem l).
Proof.
  intros H W. apply preserves_forEach. intros item.
  unfold processItem. cbv zeta. apply preserves_bind.
  - now apply keeps_sendToDiscord_relay.
  - intros _. apply preserves_bind; [apply W|].
    intros _. now apply keeps_filterStep.
Qed.

Lemma keeps_pollChat_after_list (P : St -> Prop) (st : St) :
  itemStable P -> (forall user, preserves P (welcomeStep user)) ->
  (forall t s, P s -> P (setCursor t s)) ->
  (forall d s, P s -> P (addTimer d s)) ->
  P (addEvent (listEvent st) st) -> P (fst (pollChat st)).
Proof.
  intros HE HW HC HT H.
  unfold pollChat, tryCatch, pollBody, bind at 1.
  unfold listCall. unfold listEvent in H.
  destruct (listMessages env (trace st) (default "" (nextPageToken st)))
    as [res|e]; cbv beta iota zeta; [|apply HT; exact H].
  set (st1 := addEvent _ st) in *.
  set (k := bind get _).
  change (P (fst (tryCatch k (fun msg => setTimeout (backoff msg)) st1))).
  apply preserves_tryCatch;
    [|intros msg; unfold setTimeout; apply preserves_modify, HT|exact H].
  subst k. apply preserves_bind; [apply preserves_get|]. intros s.
  apply preserves_bind.
  - destruct (firstRun s); [apply preserves_ret|]. now apply keeps_items.
  - intros _. apply preserves_bind; [apply preserves_modify, HC|].
    intros _. unfold setTimeout. apply preserves_modify, HT.
Qed.

Lemma welcomeStep_known (user : string) (st : St) :
  user ∈ participants st -> welcomeStep user st = (st, Ok tt).
Proof.
  intros H. unfold welcomeStep, bind at 1, get.
  now rewrite bool_decide_eq_true_2 by exact H.
Qed.

Lemma welcomeStep_state (user : string) (st : St) :
  user ∉ participants st ->
  fst (welcomeStep user st) =
    addEvent
      (mkEvent AtWelcome (InsertMessage (welcomeText user))
         (callFails env
            (trace st ++
             [mkEvent AtPersist (WriteFile (participants st ++ [user]))
                (callFails env (trace st) (WriteFile (participants st ++ [user])))])
            (InsertMessage (welcomeText user))))
      (addEvent
         (mkEvent AtPersist (WriteFile (participants st ++ [user]))
            (callFails env (trace st) (WriteFile (participants st ++ [user]))))
         (addParticipant user st)).
Proof.
  intros N. unfold welcomeStep, bind at 1, get.
  rewrite bool_decide_eq_false_2 by exact N. reflexivity.
Qed.

(** The calls of one poll: the [list] call, then calls of the shapes a chat
    item can cause. *)
Lemma pollChat_trace (st : St) :
  exists more,
    trace (fst (pollChat st)) = trace st ++ listEvent st :: more /\
    Forall (itemEvent config) more.
Proof.
  apply (keeps_pollChat_after_list
           (fun s => exists more,
              trace s = trace st ++ listEvent st :: more /\
              Forall (itemEvent config) more)).
  - intros e s He _ _ (more & Hm & F). exists (more ++ [e]). split.
    + cbn [trace addEvent]. now rewrite Hm, <- app_assoc.
    + apply Forall_app. split; [exact F | now repeat constructor].
  - intros user s (more & Hm & F).
    destruct (decide (user ∈ participants s)) as [I|N].
    + rewrite welcomeStep_known by exact I. now exists more.
    + rewrite welcomeStep_state by exact N.
      eexists (more ++ [_; _]). split.
      * cbn [trace addEvent addParticipant]. rewrite Hm.
        rewrite <- !app_assoc. reflexivity.
      * apply Forall_app. split; [exact F|]. repeat constructor.
  - intros t s Hs. exact Hs.
  - intros d s Hs. exact Hs.
  - exists []. split; [reflexivity | constructor].
Qed.

Lemma announce_state (tm : TimedMessage) (st : St) :
  fst (announce tm st) =
    addEvent (mkEvent AtTimed (InsertMessage (message tm))
                (callFails env (trace st) (InsertMessage (message tm)))) st.
Proof.
  unfold announce, tryCatch, sendMessage, perform.
  now destruct (callFails env (trace st) (InsertMessage (message tm))).
Qed.

Lemma pollChat_timers (st : St) :
  exists d, timers (fst (pollChat st)) = timers st ++ [d].
Proof.
  pose proof (pollBody_outcome config commands startTime env st) as O.
  unfold pollChat, tryCatch. destruct (pollBody st) as [s [[]|msg]].
  - destruct O as (res & _ & T & _). now exists (pollInterval res).
  - destruct O as [T _]. exists (backoff msg). simpl. now rewrite T.
Qed.

Lemma itemEvent_site (e : Event) :
  itemEvent config e -> site e <> AtPoll /\ site e <> AtTimed.
Proof. intros []; split; discriminate. Qed.

Lemma reachable_lifeEvents (loaded : list string) (st : St) :
  reachable loaded st -> Forall (lifeEvent config) (trace st).
Proof.
  unfold reachable. revert st.
  apply (rtc_ind_r (fun st => Forall (lifeEvent config) (trace st))).
  - constructor.
  - intros y z _ [s|s tm Htm] IH.
    + destruct (pollChat_trace s) as (more & -> & F).
      apply Forall_app. split; [exact IH|]. constructor; [constructor|].
      eapply Forall_impl; [exact F|]. intros e He. now constructor.
    + rewrite announce_state. cbn [trace addEvent].
      apply Forall_app. split; [exact IH|]. repeat constructor. exact Htm.
Qed.

Lemma pollCount_app (tr tr' : list Event) :
  pollCount (tr ++ tr') = (pollCount tr + pollCount tr')%nat.
Proof. unfold pollCount. now rewrite filter_app, length_app. Qed.

Lemma pollCount_items (more : list Event) :
  Forall (itemEvent config) more -> pollCount more = 0%nat.
Proof.
  unfold pollCount. induction 1 as [|e more He _ IH]; [reflexivity|].
  rewrite filter_cons_False; [exact IH|]. now apply itemEvent_site.
Qed.

Lemma reachable_pollCount (loaded : list string) (st : St) :
  reachable loaded st -> length (timers st) = pollCount (trace st).
Proof.
  unfold reachable. revert st.
  apply (rtc_ind_r (fun st => length (timers st) = pollCount (trace st))).
  - reflexivity.
  - intros y z _ [s|s tm Htm] IH.
    + destruct (pollChat_trace s) as (more & -> & F).
      destruct (pollChat_timers s) as [d ->].
      rewrite length_app, pollCount_app, IH. f_equal.
      change (listEvent s :: more) with ([listEvent s] ++ more).
      rewrite pollCount_app, (pollCount_items more F). reflexivity.
    + rewrite announce_state. cbn [trace timers addEvent].
      rewrite pollCount_app, IH.
      change (pollCount [_]) with 0%nat. lia.
Qed.

(** *** The store *)

Lemma welcomeTexts_snoc (tr : list Event) (e : Event) :
  welcomeTexts (tr ++ [e]) =
  welcomeTexts tr ++
  (if bool_decide (site e = AtWelcome) then
     match call e with InsertMessage t => [t] | _ => [] end
   else []).
Proof.
  unfold welcomeTexts. rewrite omap_app. f_equal. simpl.
  destruct (bool_decide (site e = AtWelcome)); [|reflexivity].
  now destruct (call e).
Qed.

Lemma lastWrite_snoc (tr : list Event) (e : Event) :
  lastWrite (tr ++ [e]) =
  match call e with WriteFile l => Some l | _ => lastWrite tr end.
Proof.
  unfold lastWrite. rewrite omap_app. simpl.
  destruct (call e); rewrite ?app_nil_r; try reflexivity.
  apply last_snoc.
Qed.

Lemma storeInv_itemStable (loaded : list string) : itemStable (storeInv loaded).
Proof.
  intros e s He Hw Hp ((added & Hs & Ht) & Hl & Hn).
  repeat split; cbn [participants trace addEvent].
  - exists added. split; [exact Hs|].
    rewrite welcomeTexts_snoc, bool_decide_eq_false_2 by exact Hw.
    now rewrite app_nil_r.
  - rewrite lastWrite_snoc. destruct He; try exact Hl. now contradict Hp.
  - exact Hn.
Qed.

Lemma storeInv_welcomeStep (loaded : list string) (user : string) :
  preserves (storeInv loaded) (welcomeStep user).
Proof.
  intros s ((added & Hs & Ht) & Hl & Hn).
  destruct (decide (user ∈ participants s)) as [I|N].
  - rewrite welcomeStep_known by exact I. now repeat split; [exists added|..].
  - rewrite welcomeStep_state by exact N.
    repeat split; cbn [participants trace addEvent addParticipant].
    + exists (added ++ [user]). split.
      * now rewrite Hs, app_assoc.
      * rewrite !welcomeTexts_snoc. cbn [site call].
        rewrite bool_decide_eq_false_2 by discriminate.
        rewrite bool_decide_eq_true_2 by reflexivity.
        now rewrite app_nil_r, Ht, fmap_app.
    + now rewrite !lastWrite_snoc.
    + intros Hd. apply NoDup_app. repeat split.
      * now apply Hn.
      * intros x Hx Hx'. apply list_elem_of_singleton in Hx'. now subst.
      * apply NoDup_singleton.
Qed.

Lemma reachable_storeInv (loaded : list string) (st : St) :
  reachable loaded st -> storeInv loaded st.
Proof.
  unfold reachable. revert st. apply (rtc_ind_r (storeInv loaded)).
  - repeat split.
    + exists []. now rewrite app_nil_r.
    + trivial.
  - intros y z _ [s|s tm Htm] IH.
    + apply keeps_pollChat_after_list; auto using storeInv_itemStable,
        storeInv_welcomeStep.
      destruct IH as ((added & Hs & Ht) & Hl & Hn).
      repeat split; cbn [participants trace addEvent].
      * exists added. split; [exact Hs|].
        rewrite welcomeTexts_snoc. cbn [site listEvent].
        rewrite bool_decide_eq_false_2 by discriminate.
        now rewrite app_nil_r.
      * now rewrite lastWrite_snoc.
      * exact Hn.
    + rewrite announce_state.
      destruct IH as ((added & Hs & Ht) & Hl & Hn).
      repeat split; cbn [participants trace addEvent].
      * exists added. split; [exact Hs|].
        rewrite welcomeTexts_snoc. cbn [site].
        rewrite bool_decide_eq_false_2 by discriminate.
        now rewrite app_nil_r.
      * now rewrite lastWrite_snoc.
      * exact Hn.
Qed.

(** *** What a bot's life looks like *)

(** X6. In a bot's life every call to the webhook is made with the relay
    enabled and goes to the configured address; it is either the relay of a
    chat message or a moderation notice, and a notice is posted under the name
    [Bot] without an avatar. *)
Theorem X6_webhook_calls (loaded : list string) (st : St) (e : Event)
    (hook username content : string) (avatar : option string)
    (R : reachable loaded st) (I : e ∈ trace st)
    (C : call e = Fetch hook username avatar content) :
  relayEnabled config = true /\ hook = webhookUrl config /\
  (site e = AtRelay \/ (site e = AtNotice /\ username = "Bot" /\ avatar = None)).
Proof.
  pose proof (reachable_lifeEvents loaded st R) as F.
  rewrite Forall_forall in F. specialize (F e I).
  destruct F as [| |e' []]; cbn [call site] in *; try discriminate;
    injection C as <- <- <- <-; repeat split; auto.
Qed.

(** X7. In a bot's life every message written to the chat is the welcome of
    some display name, the warning to some display name, a command reply, or
    the text of a configured timed message sent as it is configured, without
    any substitution. *)
Theorem X7_chat_messages (loaded : list string) (st : St) (e : Event)
    (text : string)
    (R : reachable loaded st) (I : e ∈ trace st)
    (C : call e = InsertMessage text) :
  (site e = AtWelcome /\ exists user, text = welcomeText user) \/
  (site e = AtWarning /\ exists user, text = warningText user) \/
  site e = AtReply \/
  (site e = AtTimed /\ exists tm, tm ∈ timedMessages config /\ text = message tm).
Proof.
  pose proof (reachable_lifeEvents loaded st R) as F.
  rewrite Forall_forall in F. specialize (F e I).
  destruct F as [|tm o Htm|e' []]; cbn [call site] in *; try discriminate;
    injection C as <-; eauto 8.
Qed.

(** X8. In a bot's life the participants are the names loaded at startup
    followed by exactly the display names that were welcomed, in the order of
    their welcome replies; if the loaded names are distinct, so are the
    participants. *)
Theorem X8_store_is_loaded_then_welcomed (loaded : list string) (st : St)
    (R : reachable loaded st) :
  exists added,
    participants st = loaded ++ added /\
    welcomeTexts (trace st) = welcomeText <$> added /\
    (NoDup loaded -> NoDup (participants st)).
Proof.
  destruct (reachable_storeInv loaded st R) as ((added & Hs & Ht) & _ & Hn).
  now exists added.
Qed.

(** X9. In a bot's life the participants in memory are what the last attempt
    to write the participants file wrote, and the loaded names when no write
    was attempted: every insertion is followed by a write of the whole set. *)
Theorem X9_store_is_last_write (loaded : list string) (st : St)
    (R : reachable loaded st) :
  default loaded (lastWrite (trace st)) = participants st.
Proof. now destruct (reachable_storeInv loaded st R) as (_ & Hl & _). Qed.

(** X11. In a bot's life the number of delays handed to [setTimeout] is the
    number of [list] calls: every poll, failed or not, schedules exactly one
    next poll, and nothing else schedules one. *)
Theorem X11_one_timer_per_poll (loaded : list string) (st : St)
    (R : reachable loaded st) :
  length (timers st) = pollCount (trace st).
Proof. now apply reachable_pollCount with loaded. Qed.

Lemma twoPolls_reachable (loaded : list string) :
  reachable loaded (Life.twoPolls config commands startTime env loaded).
Proof.
  unfold reachable, Life.twoPolls.
  eapply rtc_l; [apply step_poll|]. apply rtc_once, step_poll.
Qed.

End ShapeFacts.

Section LifeRuns.

Import Life.

Lemma afterChat_reachable :
  reachable talkative ∅ 0 chat ["zed"] afterChat.
Proof. apply twoPolls_reachable. Qed.

Lemma X6_webhook_calls_witness :
  relayEnabled talkative = true /\
  "https://discord.example/hook" = webhookUrl talkative /\
  (AtNotice = AtRelay \/
   (AtNotice = AtNotice /\ "Bot" = "Bot" /\ @None string = None)).
Proof.
  apply (X6_webhook_calls talkative ∅ 0 chat ["zed"] afterChat
           (mkEvent AtNotice
              (Fetch "https://discord.example/hook" "Bot" None
                 (noticeText "bob" "Oh DARN it")) None)
           "https://discord.example/hook" "Bot"
           (noticeText "bob" "Oh DARN it") None afterChat_reachable).
  - vm_compute. repeat constructor.
  - reflexivity.
Defined.

Lemma X7_chat_messages_witness :
  (AtWarning = AtWelcome /\ exists user, warningText "bob" = welcomeText user) \/
  (AtWarning = AtWarning /\ exists user, warningText "bob" = warningText user) \/
  AtWarning = AtReply \/
  (AtWarning = AtTimed /\
   exists tm, tm ∈ timedMessages talkative /\ warningText "bob" = message tm).
Proof.
  apply (X7_chat_messages talkative ∅ 0 chat ["zed"] afterChat
           (mkEvent AtWarning (InsertMessage (warningText "bob")) None)
           (warningText "bob") afterChat_reachable).
  - vm_compute. repeat constructor.
  - reflexivity.
Defined.

Lemma X8_store_is_loaded_then_welcomed_witness :
  exists added,
    participants afterChat = ["zed"] ++ added /\
    welcomeTexts (trace afterChat) = welcomeText <$> added /\
    (NoDup ["zed"] -> NoDup (participants afterChat)).
Proof.
  apply (X8_store_is_loaded_then_welcomed talkative ∅ 0 chat ["zed"] afterChat
           afterChat_reachable).
Defined.

Lemma X9_store_is_last_write_witness :
  default ["zed"] (lastWrite (trace afterChat)) = participants afterChat.
Proof.
  apply (X9_store_is_last_write talkative ∅ 0 chat ["zed"] afterChat
           afterChat_reachable).
Defined.

Lemma X11_one_timer_per_poll_witness :
  length (timers afterChat) = pollCount (trace afterChat).
Proof.
  apply (X11_one_timer_per_poll talkative ∅ 0 chat ["zed"] afterChat
           afterChat_reachable).
Defined.

(** The life used above: ann and bob are welcomed, bob is warned. *)
Lemma afterChat_value :
  participants afterChat = ["zed"; "ann"; "bob"] /\
  timers afterChat = [5000; 5000] /\
  map site (trace afterChat) =
    [ AtPoll; AtPoll; AtRelay; AtPersist; AtWelcome; AtRelay; AtPersist;
      AtWelcome; AtWarning; AtNotice ].
Proof. vm_compute. repeat split. Qed.

End LifeRuns.

(** ** Startup *)

Lemma find_first (A : Type) (f : A -> bool) (l : list A) (b : A) :
  List.find f l = Some b <->
  exists pre post,
    l = pre ++ b :: post /\ f b = true /\ Forall (fun x => f x = false) pre.
Proof.
  induction l as [|x l IH]; simpl.
  - split; [discriminate|]. intros (pre & post & E & _). now destruct pre.
  - destruct (f x) eqn:Fx.
    + split.
      * intros [= <-]. exists [], l. now repeat split.
      * intros ([|y pre] & post & E & Fb & Fp).
        -- now injection E as -> _.
        -- injection E as <- _. inversion Fp; congruence.
    + rewrite IH. split.
      * intros (pre & post & -> & Fb & Fp). exists (x :: pre), post.
        repeat split; [exact Fb | now constructor].
      * intros ([|y pre] & post & E & Fb & Fp).
        -- injection E as -> _. congruence.
        -- injection E as <- ->. inversion Fp. now exists pre, post.
Qed.

Lemma find_none (A : Type) (f : A -> bool) (l : list A) :
  List.find f l = None <-> Forall (fun x => f x = false) l.
Proof.
  induction l as [|x l IH]; simpl; [split; [constructor | reflexivity]|].
  destruct (f x) eqn:Fx.
  - split; [discriminate|]. inversion 1; congruence.
  - rewrite IH. split; [now constructor | now inversion 1].
Qed.

(** X5. [getLiveChatId] returns the chat of the first broadcast, in the
    order of the provider's answer, whose life-cycle status is exactly [live];
    it ends the process with exit code 1 exactly when no broadcast is live
    (an empty answer included), and with no other code. *)
Theorem X5_first_live_broadcast (broadcasts : list Broadcast) :
  (forall id,
     getLiveChatId broadcasts = Started id <->
     exists pre b post,
       broadcasts = pre ++ b :: post /\
       Forall (fun x => lifeCycleStatus x <> Some "live") pre /\
       lifeCycleStatus b = Some "live" /\ liveChatId b = id) /\
  (forall code,
     getLiveChatId broadcasts = Exit code <->
     code = 1 /\ Forall (fun x => lifeCycleStatus x <> Some "live") broadcasts).
Proof.
  assert (N : forall l : list Broadcast,
            Forall (fun x => isLive x = false) l <->
            Forall (fun x => lifeCycleStatus x <> Some "live") l).
  { intros l. apply Forall_iff. intros x. unfold isLive.
    now rewrite bool_decide_eq_false. }
  assert (G : getLiveChatId broadcasts =
              match List.find isLive broadcasts with
              | None => Exit 1
              | Some active => Started (liveChatId active)
              end) by now destruct broadcasts.
  rewrite G. split.
  - intros id. destruct (List.find isLive broadcasts) as [b|] eqn:F.
    + apply find_first in F as (pre & post & E & L & Fp).
      apply bool_decide_eq_true in L. apply N in Fp. split.
      * intros [= <-]. now exists pre, b, post.
      * intros (pre' & b' & post' & E' & Fp' & L' & <-). f_equal. f_equal.
        assert (F' : List.find isLive broadcasts = Some b').
        { apply find_first. exists pre', post'. repeat split; [exact E'| |].
          - now apply bool_decide_eq_true.
          - now apply N. }
        assert (F0 : List.find isLive broadcasts = Some b).
        { apply find_first. exists pre, post. repeat split; [exact E| |].
          - now apply bool_decide_eq_true.
          - now apply N. }
        congruence.
    + split; [discriminate|].
      intros (pre & b & post & E & _ & L & _). apply find_none in F.
      rewrite Forall_forall in F. specialize (F b).
      unfold isLive in F. rewrite bool_decide_eq_false in F.
      exfalso. apply F; [|exact L].
      rewrite E. apply elem_of_app. right. constructor.
  - intros code. destruct (List.find isLive broadcasts) as [b|] eqn:F.
    + split; [discriminate|]. intros [_ Fa].
      apply find_first in F as (pre & post & E & L & _).
      apply bool_decide_eq_true in L. rewrite Forall_forall in Fa.
      exfalso. apply (Fa b); [|exact L].
      rewrite E. apply elem_of_app. right. constructor.
    + apply find_none, N in F. split.
      * intros H. injection H as <-. now split.
      * intros H. destruct H as [H _]. now subst.
Qed.

Lemma setAdd_fold_distinct (acc l : list string) :
  NoDup (acc ++ l) -> foldl (fun set user => setAdd user set) acc l = acc ++ l.
Proof.
  revert acc. induction l as [|x l IH]; intros acc H; simpl.
  - now rewrite app_nil_r.
  - assert (Hx : x ∉ acc).
    { apply NoDup_app in H as (_ & H & _). intros I. apply (H x I). constructor. }
    unfold setAdd at 2. rewrite bool_decide_eq_false_2 by exact Hx.
    rewrite IH; rewrite <- app_assoc; [reflexivity | exact H].
Qed.

Lemma setAdd_fold_set (acc l : list string) :
  NoDup acc ->
  NoDup (foldl (fun set user => setAdd user set) acc l) /\
  forall u, u ∈ foldl (fun set user => setAdd user set) acc l <-> u ∈ acc \/ u ∈ l.
Proof.
  revert acc. induction l as [|x l IH]; intros acc H; simpl.
  - split; [exact H|]. intros u. rewrite elem_of_nil. tauto.
  - assert (H' : NoDup (setAdd x acc) /\
                 forall u, u ∈ setAdd x acc <-> u ∈ acc \/ u = x).
    { unfold setAdd. case_bool_decide as I.
      - split; [exact H|]. intros u. split; [tauto|]. now intros [? | ->].
      - split.
        + apply NoDup_app. repeat split; [exact H| |apply NoDup_singleton].
          intros y Hy Hy'. apply list_elem_of_singleton in Hy'. now subst.
        + intros u. now rewrite elem_of_app, list_elem_of_singleton. }
    destruct H' as [Hn He]. destruct (IH _ Hn) as [IH1 IH2].
    split; [exact IH1|]. intros u. rewrite IH2, He, elem_of_cons. tauto.
Qed.

(** X18. The participants read at startup repeat no name and hold exactly the
    names of the file's array; a missing or unreadable file gives the empty
    set. *)
Theorem X18_loaded_participants (file : FileRead) :
  NoDup (loadParticipants file) /\
  (forall u, u ∈ loadParticipants file <->
             exists array, file = Content array /\ u ∈ array).
Proof.
  destruct file as [|msg|array]; simpl.
  - split; [constructor|]. intros u. rewrite elem_of_nil.
    split; [tauto | now intros (? & ? & _)].
  - split; [constructor|]. intros u. rewrite elem_of_nil.
    split; [tauto | now intros (? & ? & _)].
  - destruct (setAdd_fold_set [] array) as [Hn He]; [constructor|].
    split; [exact Hn|]. intros u. unfold newSet. rewrite He, elem_of_nil.
    split.
    + intros [[]|H]. now exists array.
    + intros (a & [= <-] & H). now right.
Qed.

(** X10. Round trip through the participants file: when the loaded names are
    distinct, reading back the array that is written for the store gives the
    store itself, and a bot restarted from it (with whatever configuration and
    provider) never welcomes a display name that is in it. *)
Theorem X10_restart_does_not_welcome_again
    (config : Config) (commands : gmap string Command) (startTime : Z)
    (env : Env) (loaded : list string) (st : St)
    (config' : Config) (commands' : gmap string Command) (startTime' : Z)
    (env' : Env) (st' : St)
    (D : NoDup loaded)
    (R : reachable config commands startTime env loaded st)
    (R' : reachable config' commands' startTime' env'
            (loadParticipants (Content (participants st))) st') :
  loadParticipants (Content (participants st)) = participants st /\
  forall u, u ∈ participants st -> welcomesFor u (trace st') = 0%nat.
Proof.
  assert (E : loadParticipants (Content (participants st)) = participants st).
  { cbn [loadParticipants]. unfold newSet.
    rewrite setAdd_fold_distinct; [reflexivity|]. simpl.
    destruct (reachable_storeInv _ _ _ _ _ _ R) as (_ & _ & Hn). now apply Hn. }
  split; [exact E|]. intros u Hu. rewrite E in R'.
  destruct (reachable_welcomeInv _ _ _ _ _ _ R') as (_ & _ & I3).
  destruct (welcomesFor u (trace st')) eqn:W; [reflexivity|].
  destruct (I3 u) as [_ Hn]; [lia | contradiction].
Qed.

(** ** More on uptime and on the word filter *)

(** X12. For a start time that is not in the future, the three numbers that
    [formatUptime] prints are the hours, minutes and seconds of the elapsed
    time: minutes and seconds lie between 0 and 59, hours are not negative,
    and together they are the elapsed milliseconds rounded down to a whole
    second. *)
Theorem X12_uptime_is_hours_minutes_seconds (t startTime : Z)
    (H : startTime <= t) :
  exists h m s,
    formatUptime t startTime =
      numberToString h +:+ "h " +:+ numberToString m +:+ "m "
        +:+ numberToString s +:+ "s" /\
    0 <= h /\ 0 <= m < 60 /\ 0 <= s < 60 /\
    (h * 3600 + m * 60 + s) * 1000 <= t - startTime
      < (h * 3600 + m * 60 + s + 1) * 1000.
Proof.
  exists ((t - startTime) / 3600000), (((t - startTime) / 60000) mod 60),
         (((t - startTime) / 1000) mod 60).
  split.
  - unfold formatUptime. cbv zeta.
    rewrite !Z.rem_mod_nonneg by (try apply Z.div_pos; lia). reflexivity.
  - Z.to_euclidean_division_equations. lia.
Qed.

Lemma X12_uptime_is_hours_minutes_seconds_witness :
  exists h m s,
    formatUptime 3725999 0 =
      numberToString h +:+ "h " +:+ numberToString m +:+ "m "
        +:+ numberToString s +:+ "s" /\
    0 <= h /\ 0 <= m < 60 /\ 0 <= s < 60 /\
    (h * 3600 + m * 60 + s) * 1000 <= 3725999 - 0
      < (h * 3600 + m * 60 + s + 1) * 1000.
Proof.
  apply (X12_uptime_is_hours_minutes_seconds 3725999 0). lia.
Defined.

Section FilterFacts.

Local Arguments String.append : simpl nomatch.

Lemma toLowerCase_append (s t : string) :
  toLowerCase (s +:+ t) = toLowerCase s +:+ toLowerCase t.
Proof. induction s as [|c s IH]; simpl; [reflexivity | now rewrite IH]. Qed.

Lemma includes_append (pre pat post : string) :
  includes (pre +:+ pat +:+ post) pat = true.
Proof.
  unfold includes.
  destruct (splitFirst pat (pre +:+ pat +:+ post)) eqn:S; [reflexivity|].
  now apply splitFirst_None with (b := pre) (a := post) in S.
Qed.

Lemma includes_empty (s : string) : includes s "" = true.
Proof. exact (includes_append "" "" s). Qed.

End FilterFacts.

(** X14. Banned words are looked for as substrings, whatever the case of the
    message: an ASCII message that holds, anywhere and in any mix of cases, a
    text whose lowercase form is a configured banned word is detected. *)
Theorem X14_banned_word_anywhere_in_any_case (config : Config)
    (w pre found post : string)
    (A : asciiOnly (pre +:+ found +:+ post) = true)
    (B : w ∈ badWords config) (L : toLowerCase found = w) :
  hasBadWord config (pre +:+ found +:+ post) = true.
Proof.
  apply hasBadWord_detects with w; [exact B|].
  rewrite !toLowerCase_append, L. apply includes_append.
Qed.

Lemma X14_banned_word_anywhere_in_any_case_witness :
  hasBadWord Life.talkative ("Oh " +:+ "DaRn" +:+ "ed thing") = true.
Proof.
  apply (X14_banned_word_anywhere_in_any_case Life.talkative "darn").
  - reflexivity.
  - repeat constructor.
  - reflexivity.
Defined.

(** X15. An empty string among the banned words (a blank entry of the
    configuration) matches every message: every message is moderated. *)
Theorem X15_empty_banned_word_matches_everything (config : Config)
    (message : string) (B : "" ∈ badWords config) :
  hasBadWord config message = true.
Proof. apply hasBadWord_detects with ""; [exact B | apply includes_empty]. Qed.

Lemma X15_empty_banned_word_matches_everything_witness :
  hasBadWord Inputs.muted "good morning" = true.
Proof.
  apply (X15_empty_banned_word_matches_everything Inputs.muted "good morning").
  repeat constructor.
Defined.

(** ** More on the pipeline *)

Section PipelineFacts.

Variable config : Config.
Variable commands : gmap string Command.
Variable startTime : Z.
Variable env : Env.

#[local] Abbreviation welcomeStep := (welcomeStep env).
#[local] Abbreviation filterStep := (filterStep config commands startTime env).
#[local] Abbreviation processItem := (processItem config commands startTime env).
#[local] Abbreviation pollBody := (pollBody config commands startTime env).
#[local] Abbreviation pollChat := (pollChat config commands startTime env).
#[local] Abbreviation listEvent := (listEvent env).

(** X13. A message in which a banned word is detected never gets a command
    reply, whatever the command table holds and whichever calls fail: none of
    the calls made for it is a reply. *)
Theorem X13_moderated_message_gets_no_reply (item : Item) (st : St)
    (B : hasBadWord config (displayMessage item) = true) :
  exists more,
    trace (fst (processItem item st)) = trace st ++ more /\
    Forall (fun e => site e <> AtReply) more.
Proof.
  set (P := fun s => exists more,
              trace s = trace st ++ more /\
              Forall (fun e => site e <> AtReply) more).
  assert (S : forall e s, site e <> AtReply -> P s -> P (addEvent e s)).
  { intros e s He (more & Hm & F). exists (more ++ [e]). split.
    - cbn [trace addEvent]. now rewrite Hm, <- app_assoc.
    - apply Forall_app. split; [exact F | now repeat constructor]. }
  assert (P0 : P st) by (exists []; split; [now rewrite app_nil_r | constructor]).
  cut (preserves P (processItem item)); [intros Q; exact (Q st P0)|].
  unfold processItem. cbv zeta.
  apply preserves_bind.
  - apply preserves_sendToDiscord. intros e s E. apply S. now rewrite E.
  - intros _. apply preserves_bind.
    + intros s Hs. destruct (decide (displayName item ∈ participants s)) as [I|N].
      * now rewrite welcomeStep_known.
      * rewrite welcomeStep_state by exact N.
        apply S; [discriminate|]. apply S; [discriminate|]. exact Hs.
    + intros _. rewrite (filterStep_moderated config commands startTime env _ _ B).
      apply preserves_bind.
      * apply preserves_perform. intros o s. now apply S.
      * intros _. apply preserves_sendToDiscord. intros e s E. apply S.
        now rewrite E.
Qed.



(** X17. After a successful poll the cursor is the provider's continuation
    token, and the next poll starts by asking for that page; when the provider
    gave no token, it asks from the start of the stream again. *)
Theorem X17_next_poll_asks_for_the_next_page (st st' : St)
    (H : pollBody st = (st', Ok tt)) :
  exists res,
    listMessages env (trace st) (default "" (nextPageToken st)) = Ok res /\
    nextPageToken (fst (pollChat st)) = resNextPageToken res /\
    exists e more,
      trace (fst (pollChat (fst (pollChat st))))
        = trace (fst (pollChat st)) ++ e :: more /\
      site e = AtPoll /\
      call e = ListMessages (default "" (resNextPageToken res)).
Proof.
  pose proof (pollBody_outcome config commands startTime env st) as O.
  assert (E : fst (pollChat st) = st').
  { unfold pollChat, tryCatch. now rewrite H. }
  rewrite H in O. destruct O as (res & L & _ & Hk & _). exists res.
  rewrite E. repeat split; [exact L | exact Hk |].
  destruct (pollChat_trace config commands startTime env st') as (more & Hm & _).
  exists (listEvent st'), more. repeat split; [exact Hm|].
  unfold listEvent. cbn [call]. now rewrite Hk.
Qed.

End PipelineFacts.


(** X4. A command is matched whatever the case of its trigger or alias in the
    configuration and of the message: when the lowercased message is a
    lowercased trigger or alias, other than [__proto__], of a definition that
    has a trigger and a response, no later definition uses that key, and the
    message is not moderated, the reply sent is that definition's template,
    rendered. (An own property is found before the prototype is looked at, so
    this holds whatever else the configuration defines.) *)
Theorem X4_trigger_matches_in_any_case (config : Config) (startTime : Z)
    (env : Env) (before after : list CommandDef) (d : CommandDef)
    (user message : string) (st : St)
    (V : defValid d = true)
    (K : toLowerCase message ∈ defKeys d)
    (P : toLowerCase message <> "__proto__")
    (N : Forall (fun d' => defines (toLowerCase message) d' = false) after)
    (B : hasBadWord config message = false) :
  filterStep config (loadCommands (before ++ d :: after)) startTime env
    user message st
  = sendMessage env AtReply
      (renderReply (defResponse d) user
         (formatUptime (dateNow env (trace st)) startTime) message) st.
Proof.
  unfold filterStep. rewrite B. unfold commandStep, commandsGet.
  rewrite loadCommands_lookup, bool_decide_eq_false_2 by exact P.
  assert (A : filter (fun d' => defines (toLowerCase message) d' = true) after
              = []).
  { induction N as [|d' l Hd _ IH]; [reflexivity|].
    rewrite filter_cons_False by congruence. exact IH. }
  rewrite filter_app, filter_cons_True, A, last_snoc.
  - reflexivity.
  - unfold defines. rewrite V. now apply bool_decide_eq_true_2.
Qed.

(** ** More concrete runs *)

Section MoreRuns.

Import Scenario Life Inputs.

Lemma X2_invalid_definition_is_skipped_witness :
  loadCommands helpDefs =
  loadCommands
    [ mkDef "!Help" "Old help for {user}" None (Some ["!H"]);
      mkDef "!HELP" "Type !uptime, {user}" (Some "help") (Some ["!Commands"]) ].
Proof.
  apply (X2_invalid_definition_is_skipped
           [mkDef "!Help" "Old help for {user}" None (Some ["!H"])]
           [mkDef "!HELP" "Type !uptime, {user}" (Some "help")
              (Some ["!Commands"])]
           (mkDef "!uptime" "" None (Some ["!up"]))).
  right. reflexivity.
Defined.

Lemma X3_keys_are_lowercase_witness :
  toLowerCase "!commands" = "!commands" /\
  response (mkCommand "Type !uptime, {user}" "help" ["!Commands"]) <> "" /\
  exists d, d ∈ helpDefs /\
            mkCommand "Type !uptime, {user}" "help" ["!Commands"] = entryOf d /\
            "!commands" ∈ defKeys d.
Proof.
  apply (X3_keys_are_lowercase helpDefs "!commands").
  vm_compute. reflexivity.
Defined.

Lemma X4_trigger_matches_in_any_case_witness :
  filterStep relayOff (loadCommands helpDefs) 0 (quietEnv []) "ann" "!HeLp"
    (running ["ann"])
  = sendMessage (quietEnv []) AtReply "Type !uptime, ann" (running ["ann"]).
Proof.
  apply (X4_trigger_matches_in_any_case relayOff 0 (quietEnv [])
           [ mkDef "!Help" "Old help for {user}" None (Some ["!H"]);
             mkDef "!uptime" "" None (Some ["!up"]) ]
           []
           (mkDef "!HELP" "Type !uptime, {user}" (Some "help")
              (Some ["!Commands"]))
           "ann" "!HeLp" (running ["ann"])).
  - reflexivity.
  - vm_compute. repeat constructor.
  - discriminate.
  - constructor.
  - reflexivity.
Defined.

Lemma X10_restart_does_not_welcome_again_witness :
  loadParticipants (Content (participants afterChat)) = participants afterChat /\
  forall u, u ∈ participants afterChat ->
    welcomesFor u
      (trace (twoPolls talkative ∅ 0 chat
                (loadParticipants (Content (participants afterChat)))))
    = 0%nat.
Proof.
  apply (X10_restart_does_not_welcome_again talkative ∅ 0 chat ["zed"]
           afterChat talkative ∅ 0 chat).
  - apply NoDup_singleton.
  - apply afterChat_reachable.
  - apply twoPolls_reachable.
Defined.

Lemma X13_moderated_message_gets_no_reply_witness :
  exists more,
    trace (fst (processItem talkative darnTable 0 chat
                  (mkItem "UC-bob" "bob" None "darn") (running [])))
    = trace (running []) ++ more /\
    Forall (fun e => site e <> AtReply) more.
Proof.
  apply (X13_moderated_message_gets_no_reply talkative darnTable 0 chat
           (mkItem "UC-bob" "bob" None "darn") (running [])).
  reflexivity.
Defined.


Lemma X17_next_poll_asks_for_the_next_page_witness :
  nextPageToken
    (fst (pollChat relayOff ∅ 0 (quietEnv [annHello]) (running ["ann"])))
  = Some "p2".
Proof.
  assert (H : pollBody relayOff ∅ 0 (quietEnv [annHello]) (running ["ann"])
              = (mkSt (Some "p2") false ["ann"]
                   [mkEvent AtPoll (ListMessages "p1") None] [5000], Ok tt))
    by (vm_compute; reflexivity).
  destruct (X17_next_poll_asks_for_the_next_page relayOff ∅ 0
              (quietEnv [annHello]) (running ["ann"]) _ H)
    as (res & L & T & _).
  injection L as <-. exact T.
Defined.

End MoreRuns.
